(** * FocusFlow: the advanced security manager

    A shallow embedding of [backend/app/core/advanced_security.py]
    (class [AdvancedSecurityManager]) and the properties of its rate limiter,
    threat scorer, token service, MFA service, security event log and
    password policy.

    Conventions of the embedding.
    - The Redis server is a value of type [Redis]; every coroutine of the
      manager is a function from the store to a result and the new store.
      An exception leaves the writes made before it in place.
    - Time is a number of seconds, passed as [now] to each call; a key with
      a time to live is visible until its deadline, the deadline included,
      and is gone once [now] is past it.
    - A string is a sequence of code points below 256; [str.isupper],
      [str.islower], [str.isdigit], [str.lower] and [str.strip] are the
      Unicode-aware methods of Python on these code points.
    - The module [jwt] is PyJWT: it has [ExpiredSignatureError] and no
      attribute [JWTError], and its [decode] checks [iat], [nbf], [exp],
      [aud], [sub] and [jti].
    - Random draws ([secrets.token_hex], [pyotp.random_base32]) are
      arguments of the function that makes them.
    - The risk score is computed on binary64 floats, as Python does.
    - The password entropy uses [math.log2] and [2**x], which are modelled
      on the real numbers; the one binary64 effect kept is the
      [OverflowError] that [2**x] raises from [x = 1024] on. *)

From Stdlib Require Import ZArith QArith Qabs Reals Floats Lia Lra Ascii String.
From stdpp Require Import base strings gmap list pretty.

Set Warnings "-inexact-float".
Local Open Scope Z_scope.

(** ** Enumerations and the security event *)

Inductive SecurityLevel := LOW | MEDIUM | HIGH | CRITICAL.

Inductive ThreatType :=
  | BRUTE_FORCE | CREDENTIAL_STUFFING | UNUSUAL_ACTIVITY
  | DATA_EXFILTRATION | API_ABUSE.

Inductive MFAMethod := TOTP | SMS | EMAIL | HARDWARE_KEY.

Definition SecurityLevel_value (l : SecurityLevel) : string :=
  match l with
  | LOW => "low" | MEDIUM => "medium" | HIGH => "high" | CRITICAL => "critical"
  end.

Definition ThreatType_value (t : ThreatType) : string :=
  match t with
  | BRUTE_FORCE => "brute_force"
  | CREDENTIAL_STUFFING => "credential_stuffing"
  | UNUSUAL_ACTIVITY => "unusual_activity"
  | DATA_EXFILTRATION => "data_exfiltration"
  | API_ABUSE => "api_abuse"
  end.

(** The three [details] dictionaries the manager builds. *)
Inductive Details :=
  | RateLimitDetails (action : string)   (* action, rate_limit_exceeded: True *)
  | MfaBruteForceDetails                 (* mfa_brute_force: True *)
  | ThreatDetails (features : list (string * float))
                  (activity_data : list (string * float)).

Record SecurityEvent := mkEvent {
  event_id : string;
  user_id : option string;
  event_type : ThreatType;
  severity : SecurityLevel;
  timestamp : Z;
  ip_address : string;
  user_agent : string;
  details : Details;
  risk_score : float
}.

(** [alert_data] of [_trigger_security_alert]: a projection of the event. *)
Record Alert := mkAlert {
  alert_type : string;
  alert_severity : string;
  alert_user_id : option string;
  threat_type : string;
  alert_risk_score : float;
  alert_timestamp : Z;
  alert_details : Details
}.

(** ** The Redis store *)

(** Claim values of a token and of a ledger record. *)
Inductive jvalue := JNull | JBool (b : bool) | JInt (n : Z) | JStr (s : string).

(** A stored string: a decimal counter, raw bytes, or the JSON text of a
    ledger record (never empty). *)
Inductive rvalue :=
  | RInt (n : Z)
  | RBytes (b : string)
  | RJson (user : jvalue) (token_type : string).

Record entry := mkEntry { e_val : rvalue; e_deadline : option Z }.

Record Redis := mkRedis {
  kv : gmap string entry;                   (* string keys, with their TTL *)
  sets : gmap string (gset string);         (* SADD / SMEMBERS *)
  security_events : list SecurityEvent;     (* list key security_events *)
  security_alerts : list Alert              (* list key security_alerts *)
}.

Definition empty_redis : Redis := mkRedis ∅ ∅ [] [].

Definition set_kv (f : gmap string entry → gmap string entry) (st : Redis) : Redis :=
  mkRedis (f (kv st)) (sets st) (security_events st) (security_alerts st).

(** A key is served until its deadline, the deadline included: the server
    drops it once the time is past the deadline. *)
Definition live (now : Z) (e : entry) : bool :=
  match e_deadline e with
  | None => true
  | Some d => now <=? d
  end.

(** GET: the value of a key that exists and has not expired. *)
Definition redis_get (now : Z) (key : string) (st : Redis) : option rvalue :=
  match kv st !! key with
  | Some e => if live now e then Some (e_val e) else None
  | None => None
  end.

(** SETEX key seconds value. *)
Definition redis_setex (now : Z) (key : string) (seconds : Z) (v : rvalue)
    (st : Redis) : Redis :=
  set_kv (λ m, <[key := mkEntry v (Some (now + seconds))]> m) st.

(** DEL key. *)
Definition redis_delete (key : string) (st : Redis) : Redis :=
  set_kv (λ m, delete key m) st.

(** The largest value of a counter: counters are signed 64-bit integers. *)
Definition int64_max : Z := 9223372036854775807.

(** INCR key: a missing or expired key counts from 0 and has no deadline;
    a live counter keeps its deadline. [None]: the value is not an integer,
    or the increment would pass [int64_max]. *)
Definition redis_incr (now : Z) (key : string) (st : Redis) : option Redis :=
  match kv st !! key with
  | Some e =>
      if live now e then
        match e_val e with
        | RInt n =>
            if n <? int64_max
            then Some (set_kv (λ m, <[key := mkEntry (RInt (n + 1)) (e_deadline e)]> m) st)
            else None
        | _ => None
        end
      else Some (set_kv (λ m, <[key := mkEntry (RInt 1) None]> m) st)
  | None => Some (set_kv (λ m, <[key := mkEntry (RInt 1) None]> m) st)
  end.

(** EXPIRE key seconds: no effect on a key that does not exist. *)
Definition redis_expire (now : Z) (key : string) (seconds : Z) (st : Redis) : Redis :=
  match kv st !! key with
  | Some e =>
      if live now e
      then set_kv (λ m, <[key := mkEntry (e_val e) (Some (now + seconds))]> m) st
      else st
  | None => st
  end.

(** LTRIM key start stop on a list value: both indices are inclusive, a
    negative index counts from the end of the list. *)
Definition redis_ltrim {A} (start stop : Z) (l : list A) : list A :=
  let len := Z.of_nat (length l) in
  let start := if start <? 0 then Z.max 0 (start + len) else start in
  let stop := if stop <? 0 then stop + len else stop in
  let stop := if len <=? stop then len - 1 else stop in
  if (stop <? start) || (len <=? start) then []
  else take (Z.to_nat (stop - start + 1)) (drop (Z.to_nat start) l).

(** ** Exceptions and the store monad *)

Inductive HttpDetail :=
  | DetailText (s : string)
  | DetailRateLimit (error action : string) (retry_after : Z).

Inductive exn :=
  | HTTPException (status_code : Z) (detail : HttpDetail)
  | KeyError (key : string)
  | ValueError
  | ResponseError
  | AttributeError (message : string)
  | OverflowError.

Inductive Res (A : Type) :=
  | Ok (a : A)
  | Raise (e : exn).
Arguments Ok {A} a.
Arguments Raise {A} e.

Definition M (A : Type) : Type := Redis → Res A * Redis.

Definition ret {A} (a : A) : M A := λ st, (Ok a, st).
Definition raise {A} (e : exn) : M A := λ st, (Raise e, st).
Definition bind {A B} (m : M A) (f : A → M B) : M B :=
  λ st, match m st with
        | (Ok a, st') => f a st'
        | (Raise e, st') => (Raise e, st')
        end.
Definition modify (f : Redis → Redis) : M unit := λ st, (Ok tt, f st).

Notation "x <- m ;; k" := (bind m (λ x, k))
  (at level 100, m at next level, right associativity).
Notation "m ;;; k" := (bind m (λ _, k))
  (at level 100, right associativity).

(** ** SecurityEventLog *)

Definition _trigger_security_alert (event : SecurityEvent) : M unit :=
  let alert_data :=
    mkAlert "security_threat" (SecurityLevel_value (severity event))
            (user_id event) (ThreatType_value (event_type event))
            (risk_score event) (timestamp event) (details event) in
  modify (λ st, mkRedis (kv st) (sets st) (security_events st)
                        (alert_data :: security_alerts st)).

Definition _log_security_event (event : SecurityEvent) : M unit :=
  (* lpush, then ltrim(0, 10000) *)
  modify (λ st, mkRedis (kv st) (sets st)
                        (redis_ltrim 0 10000 (event :: security_events st))
                        (security_alerts st)) ;;;
  match severity event with
  | HIGH | CRITICAL => _trigger_security_alert event
  | _ => ret tt
  end.

(** ** The manager and its collaborators *)

(** The configured secret and the library operations the manager calls:
    [hashlib.md5(..).hexdigest()], Fernet encryption, and pyotp. A library
    call that raises is [None]. *)
Record Manager := mkManager {
  secret_key : string;
  md5_hexdigest : string → string;
  fernet_encrypt : string → string;
  fernet_decrypt : string → option string;
  totp_verify : string → string → Z → option bool;   (* secret, token, time *)
  provisioning_uri : string → string → string → string
}.

Definition jwt_algorithm : string := "HS256".
Definition access_token_expire : Z := 3600.
Definition refresh_token_expire : Z := 604800.

Record limit_config := mkLimit { requests : Z; window : Z }.

Definition rate_limits : gmap string limit_config :=
  list_to_map
    [ ("login", mkLimit 5 300);
      ("api_call", mkLimit 1000 3600);
      ("ai_request", mkLimit 100 3600);
      ("password_reset", mkLimit 3 3600);
      ("mfa_attempt", mkLimit 10 300) ].

(** ** Requests *)

Record Request := mkRequest {
  headers : gmap string string;     (* lower-case header names *)
  client : option string            (* request.client.host *)
}.

(** Python truthiness of a string. *)
Definition truthy (s : string) : bool :=
  match s with
  | EmptyString => false
  | _ => true
  end.

(** [s.split(sep)[0]] for a one-character separator. *)
Fixpoint split_head (sep : ascii) (s : string) : string :=
  match s with
  | EmptyString => EmptyString
  | String c r => if Ascii.eqb c sep then EmptyString else String c (split_head sep r)
  end.

(** The characters [str.strip()] removes, among the code points below 256. *)
Definition is_space (c : ascii) : bool :=
  let n := Z.of_nat (Ascii.nat_of_ascii c) in
  ((9 <=? n) && (n <=? 13)) || ((28 <=? n) && (n <=? 32)) || (n =? 133) || (n =? 160).

Fixpoint lstrip (s : string) : string :=
  match s with
  | EmptyString => EmptyString
  | String c r => if is_space c then lstrip r else s
  end.

Definition strip (s : string) : string :=
  String.rev (lstrip (String.rev (lstrip s))).

(** A header or identifier that is present and truthy. *)
Definition if_truthy (o : option string) : option string :=
  match o with
  | Some s => if truthy s then Some s else None
  | None => None
  end.

Definition _get_client_ip (request : Request) : string :=
  (* Check for forwarded IP headers *)
  match if_truthy (headers request !! "x-forwarded-for") with
  | Some forwarded_for => strip (split_head "," forwarded_for)
  | None =>
      match if_truthy (headers request !! "x-real-ip") with
      | Some real_ip => real_ip
      | None => default "unknown" (client request)
      end
  end.

(** ** RateLimiter *)

Definition default_limit : limit_config := mkLimit 100 3600.

Definition _check_rate_limit (now : Z) (key action : string) : M bool :=
  let limit_config := default default_limit (rate_limits !! action) in
  λ st,
    match redis_get now key st with
    | None => (Ok true, st)                       (* No previous requests *)
    | Some (RInt current_count) => (Ok (current_count <? requests limit_config), st)
    | Some _ => (Raise ValueError, st)            (* int() of a non-number *)
    end.

(** The pipeline INCR; EXPIRE. Both commands run, then a failed INCR is
    reported. *)
Definition _increment_rate_limit_counter (now : Z) (key action : string) : M unit :=
  let limit_config := default default_limit (rate_limits !! action) in
  λ st,
    match redis_incr now key st with
    | Some st' => (Ok tt, redis_expire now key (window limit_config) st')
    | None => (Raise ResponseError, redis_expire now key (window limit_config) st)
    end.

(** The composite keys of one request: IP, user (when [user_id] is truthy)
    and user-agent digest. *)
Definition rate_limit_keys (mgr : Manager) (action client_ip : string)
    (user_id : option string) (user_agent : string) : list string :=
  omap (λ k : option string, k)
    [ Some ("rate_limit:" +:+ action +:+ ":ip:" +:+ client_ip);
      (λ u, "rate_limit:" +:+ action +:+ ":user:" +:+ u) <$> if_truthy user_id;
      Some ("rate_limit:" +:+ action +:+ ":ua:" +:+ md5_hexdigest mgr user_agent) ].

(** The first loop of [advanced_rate_limiting]: on the first key over its
    quota, log the event and raise; [rate_limits[action]] is a plain
    subscript. *)
Fixpoint check_each (now : Z) (event : SecurityEvent) (action : string)
    (keys : list string) : M unit :=
  match keys with
  | [] => ret tt
  | key :: rest =>
      ok <- _check_rate_limit now key action ;;
      if ok : bool then check_each now event action rest
      else
        _log_security_event event ;;;
        match rate_limits !! action with
        | Some cfg =>
            raise (HTTPException 429
                     (DetailRateLimit "Rate limit exceeded" action (window cfg)))
        | None => raise (KeyError action)
        end
  end.

(** The second loop: increment every counter. *)
Fixpoint increment_each (now : Z) (action : string) (keys : list string) : M unit :=
  match keys with
  | [] => ret tt
  | key :: rest =>
      _increment_rate_limit_counter now key action ;;;
      increment_each now action rest
  end.

Definition advanced_rate_limiting (mgr : Manager) (now : Z) (token_hex : string)
    (request : Request) (user_id : option string) (action : string) : M bool :=
  let client_ip := _get_client_ip request in
  let user_agent := default "unknown" (headers request !! "user-agent") in
  let keys := rate_limit_keys mgr action client_ip user_id user_agent in
  let event :=
    mkEvent token_hex user_id API_ABUSE MEDIUM now client_ip user_agent
            (RateLimitDetails action) 0.6%float in
  check_each now event action keys ;;;
  increment_each now action keys ;;;
  ret true.

(** ** ThreatScorer *)

(** Python's two-argument [max] and [min]: the first argument is kept
    unless the second is strictly beyond it. *)
Definition py_max (a b : float) : float := if PrimFloat.ltb a b then b else a.
Definition py_min (a b : float) : float := if PrimFloat.ltb b a then b else a.

Definition float_of_Z (n : Z) : float :=
  if n <? 0 then PrimFloat.opp (PrimFloat.of_uint63 (Uint63.of_Z (- n)))
  else PrimFloat.of_uint63 (Uint63.of_Z n).

Definition weights : gmap string float :=
  list_to_map
    [ ("hour_anomaly", 0.2); ("new_location", 0.3); ("new_device", 0.25);
      ("api_call_frequency", 0.15); ("data_access_volume", 0.1);
      ("failed_auth_ratio", 0.4) ]%float.

(** [features] is a dictionary read in insertion order. *)
Definition _calculate_risk_score (features : list (string * float)) : float :=
  let risk_score :=
    fold_left (λ risk_score '(feature, value),
                 let weight := default 0.1%float (weights !! feature) in
                 risk_score + value * weight)%float
              features 0.0%float in
  py_min 1.0 (py_max 0.0 risk_score).

Definition _determine_threat_level (risk_score : float) : SecurityLevel :=
  if PrimFloat.leb 0.8 risk_score then CRITICAL
  else if PrimFloat.leb 0.6 risk_score then HIGH
  else if PrimFloat.leb 0.3 risk_score then MEDIUM
  else LOW.

(** [smembers], as the two history readers use it. *)
Definition redis_smembers (key : string) (st : Redis) : gset string :=
  default ∅ (sets st !! key).

Definition _get_user_historical_ips (user_id : string) (st : Redis) : gset string :=
  redis_smembers ("user_ips:" +:+ user_id) st.

Definition _get_user_historical_agents (user_id : string) (st : Redis) : gset string :=
  redis_smembers ("user_agents:" +:+ user_id) st.

(** [current_hour] is [datetime.now().hour]; the typical hour is the
    constant mean 12.0 of [_get_user_typical_hours]. *)
Definition _extract_behavioral_features (current_hour : Z) (user_id ip user_agent : string)
    (activity : gmap string float) (st : Redis) : list (string * float) :=
  let get k d := default d (activity !! k) in
  [ ("hour_anomaly", PrimFloat.abs (float_of_Z current_hour - 12.0) / 12);
    ("new_location",
       if bool_decide (ip ∈ _get_user_historical_ips user_id st) then 0.0 else 1.0);
    ("new_device",
       if bool_decide (user_agent ∈ _get_user_historical_agents user_id st) then 0.0 else 1.0);
    ("api_call_frequency", get "calls_per_minute" 0 / 100);
    ("data_access_volume", get "data_accessed_mb" 0 / 1000);
    ("failed_auth_ratio", get "failed_auths" 0 / py_max (get "total_auths" 1) 1) ]%float.

Record ThreatResponse := mkResponse {
  r_risk_score : float;
  r_threat_level : string;
  recommended_actions : list string;
  blocking_required : bool
}.

Definition ai_powered_threat_detection (now current_hour : Z) (token_hex : string)
    (user_id : string) (request : Request) (activity_data : gmap string float)
    : M ThreatResponse :=
  λ st,
  let client_ip := _get_client_ip request in
  let user_agent := default "" (headers request !! "user-agent") in
  let features :=
    _extract_behavioral_features current_hour user_id client_ip user_agent activity_data st in
  let risk_score := _calculate_risk_score features in
  let threat_level := _determine_threat_level risk_score in
  let response :=
    match threat_level with
    | HIGH =>
        mkResponse risk_score (SecurityLevel_value threat_level)
                   ["require_mfa"; "additional_verification"] false
    | CRITICAL =>
        mkResponse risk_score (SecurityLevel_value threat_level)
                   ["block_access"; "alert_admin"; "require_account_verification"] true
    | _ => mkResponse risk_score (SecurityLevel_value threat_level) [] false
    end in
  let log : M unit :=
    match threat_level with
    | HIGH | CRITICAL =>
        _log_security_event
          (mkEvent token_hex (Some user_id) UNUSUAL_ACTIVITY threat_level now
                   client_ip user_agent
                   (ThreatDetails features (map_to_list activity_data)) risk_score)
    | _ => ret tt
    end in
  (log ;;; ret response) st.

(** The exact rational value of a finite float. *)
Definition float_to_Q (x : float) : Q :=
  match Prim2SF x with
  | S754_finite s m e =>
      (inject_Z (if s then Z.neg m else Z.pos m) * Qpower 2 e)%Q
  | _ => 0%Q
  end.

(** [x] is within [tol] of the decimal [q]. *)
Definition within (tol : Q) (x : float) (q : Q) : Prop :=
  (Qabs (float_to_Q x - q) <= tol)%Q.

(** ** MFAService *)

Record TotpSetup := mkTotpSetup {
  method : string;
  secret : string;
  qr_code_data : string;
  setup_expires_in : Z;
  backup_codes : list string
}.

(** [json.dumps] of a ledger record (string escapes left out). *)
Definition quoted (s : string) : string :=
  String (Ascii.ascii_of_nat 34) (s +:+ String (Ascii.ascii_of_nat 34) EmptyString).

Definition json_value (v : jvalue) : string :=
  match v with
  | JNull => "null"
  | JBool true => "true"
  | JBool false => "false"
  | JInt n => pretty n
  | JStr s => quoted s
  end.

(** The bytes [redis.get] hands back for a stored value. *)
Definition rvalue_bytes (v : rvalue) : string :=
  match v with
  | RInt n => pretty n
  | RBytes b => b
  | RJson user token_type =>
      "{" +:+ quoted "user_id" +:+ ": " +:+ json_value user +:+ ", "
          +:+ quoted "token_type" +:+ ": " +:+ quoted token_type +:+ "}"
  end.

Definition _setup_totp_mfa (mgr : Manager) (now : Z) (random_base32 : string)
    (codes : list string) (user_id : string) : M TotpSetup :=
  let secret := random_base32 in
  let provisioning := provisioning_uri mgr secret user_id "FocusFlow Enterprise" in
  (* Store encrypted secret temporarily (5 minutes for setup) *)
  let encrypted_secret := fernet_encrypt mgr secret in
  modify (redis_setex now ("mfa_setup:" +:+ user_id) 300 (RBytes encrypted_secret)) ;;;
  ret (mkTotpSetup "totp" secret provisioning 300 codes).

(** [try: ... except Exception: return False] *)
Definition _validate_totp_token (mgr : Manager) (now : Z) (user_id token : string)
    : M bool :=
  λ st,
    match redis_get now ("mfa_secret:" +:+ user_id) st with
    | None => (Ok false, st)
    | Some v =>
        let encrypted_secret := rvalue_bytes v in
        if truthy encrypted_secret then
          match fernet_decrypt mgr encrypted_secret with
          | None => (Ok false, st)
          | Some secret => (Ok (default false (totp_verify mgr secret token now)), st)
          end
        else (Ok false, st)
    end.

Definition validate_mfa_token (mgr : Manager) (now : Z) (token_hex : string)
    (user_id token : string) (method : MFAMethod) : M bool :=
  (* Rate limit MFA attempts *)
  let mfa_key := "mfa_attempts:" +:+ user_id in
  ok <- _check_rate_limit now mfa_key "mfa_attempt" ;;
  if ok : bool then
    (* Increment attempt counter *)
    _increment_rate_limit_counter now mfa_key "mfa_attempt" ;;;
    match method with
    | TOTP => _validate_totp_token mgr now user_id token
    | _ => ret false
    end
  else
    _log_security_event
      (mkEvent token_hex (Some user_id) BRUTE_FORCE HIGH now "unknown" "unknown"
               MfaBruteForceDetails 0.8%float) ;;;
    ret false.

(** ** TokenService *)

(** A token as the [jwt] library sees it: a set of claims signed under a
    key with an algorithm, or text that does not parse. *)
Inductive Token :=
  | Jwt (key algorithm : string) (claims : gmap string jvalue)
  | Malformed (text : string).

(** The outcomes of [jwt.decode] that the manager tells apart: the payload,
    [jwt.ExpiredSignatureError], or another [jwt.InvalidTokenError]. *)
Inductive DecodeResult :=
  | Decoded (payload : gmap string jvalue)
  | ExpiredSignatureError
  | InvalidTokenError.

Definition check_claim (c : option jvalue) (bad : Z → bool)
    (err rest : DecodeResult) : DecodeResult :=
  match c with
  | None => rest
  | Some (JInt t) => if bad t then err else rest
  | Some _ => InvalidTokenError
  end.

(** Python truthiness and [str()] of a claim value. *)
Definition py_truthy (v : option jvalue) : bool :=
  match v with
  | Some (JBool b) => b
  | Some (JInt n) => negb (n =? 0)
  | Some (JStr s) => truthy s
  | Some JNull | None => false
  end.

Definition py_str (v : option jvalue) : string :=
  match v with
  | Some (JBool true) => "True"
  | Some (JBool false) => "False"
  | Some (JInt n) => pretty n
  | Some (JStr s) => s
  | Some JNull | None => "None"
  end.

(** The manager passes no audience: a token with a truthy [aud] is
    refused. *)
Definition check_no_audience (c : option jvalue) (rest : DecodeResult) : DecodeResult :=
  if py_truthy c then InvalidTokenError else rest.

(** [sub] and [jti] must be strings when they are present. *)
Definition check_string (c : option jvalue) (rest : DecodeResult) : DecodeResult :=
  match c with
  | None | Some (JStr _) => rest
  | Some _ => InvalidTokenError
  end.

(** [jwt.decode(token, key, algorithms=..., options={verify_exp})] at time
    [now]: signature and algorithm first, then [iat], [nbf] and [exp],
    then [aud], [sub] and [jti]. *)
Definition jwt_decode (now : Z) (key : string) (algorithms : list string)
    (verify_exp : bool) (token : Token) : DecodeResult :=
  match token with
  | Malformed _ => InvalidTokenError
  | Jwt k alg claims =>
      let checked :=
        check_no_audience (claims !! "aud")
          (check_string (claims !! "sub")
             (check_string (claims !! "jti") (Decoded claims))) in
      if bool_decide (k = key) && bool_decide (alg ∈ algorithms) then
        check_claim (claims !! "iat") (λ iat, now <? iat) InvalidTokenError
          (check_claim (claims !! "nbf") (λ nbf, now <? nbf) InvalidTokenError
             (if verify_exp
              then check_claim (claims !! "exp") (λ exp, exp <=? now)
                               ExpiredSignatureError checked
              else checked))
      else InvalidTokenError
  end.

Definition jwt_encode (payload : gmap string jvalue) (key algorithm : string) : Token :=
  Jwt key algorithm payload.

Definition create_secure_jwt_token (mgr : Manager) (now : Z) (token_hex : string)
    (payload : gmap string jvalue) (token_type : string) : M Token :=
  (* Standard claims *)
  let enhanced_payload :=
    <["token_type" := JStr token_type]>
      (<["jti" := JStr token_hex]>
         (<["nbf" := JInt now]> (<["iat" := JInt now]> payload))) in
  (* Set expiration based on token type *)
  let enhanced_payload :=
    if String.eqb token_type "access"
    then <["exp" := JInt (now + access_token_expire)]> enhanced_payload
    else if String.eqb token_type "refresh"
    then <["exp" := JInt (now + refresh_token_expire)]> enhanced_payload
    else enhanced_payload in
  let token := jwt_encode enhanced_payload (secret_key mgr) jwt_algorithm in
  (* Store token in Redis for revocation capability *)
  modify (redis_setex now ("jwt:" +:+ py_str (enhanced_payload !! "jti"))
            (if String.eqb token_type "access"
             then access_token_expire else refresh_token_expire)
            (RJson (default JNull (payload !! "sub")) token_type)) ;;;
  ret token.

(** What leaves the [try] of [validate_jwt_token] when its body raises
    [e].  The clauses are tried in order: [except jwt.ExpiredSignatureError]
    takes an expired signature; for every other exception the clause
    [except jwt.JWTError] is evaluated next, and since the module has no
    attribute [JWTError] that evaluation raises [AttributeError], whatever
    the exception in flight was. *)
Inductive in_try :=
  | RaisedExpiredSignature
  | RaisedInvalidToken
  | RaisedHTTPException (status_code : Z) (detail : string).

Definition no_JWTError : exn :=
  AttributeError "module 'jwt' has no attribute 'JWTError'".

Definition except_clauses (e : in_try) : exn :=
  match e with
  | RaisedExpiredSignature => HTTPException 401 (DetailText "Token has expired")
  | RaisedInvalidToken | RaisedHTTPException _ _ => no_JWTError
  end.

Definition validate_jwt_token (mgr : Manager) (now : Z) (token : Token)
    : M (gmap string jvalue) :=
  match jwt_decode now (secret_key mgr) [jwt_algorithm] true token with
  | Decoded payload =>
      (* Check if token is revoked *)
      let jti := payload !! "jti" in
      if py_truthy jti then
        token_data <- (λ st, (Ok (redis_get now ("jwt:" +:+ py_str jti) st), st)) ;;
        match token_data with
        | Some v =>
            if truthy (rvalue_bytes v) then ret payload
            else raise (except_clauses (RaisedHTTPException 401 "Token has been revoked"))
        | None =>
            raise (except_clauses (RaisedHTTPException 401 "Token has been revoked"))
        end
      else ret payload
  | ExpiredSignatureError => raise (except_clauses RaisedExpiredSignature)
  | InvalidTokenError => raise (except_clauses RaisedInvalidToken)
  end.

Definition revoke_jwt_token (mgr : Manager) (now : Z) (token : Token) : M bool :=
  match jwt_decode now (secret_key mgr) [jwt_algorithm] false token with
  | Decoded payload =>
      let jti := payload !! "jti" in
      if py_truthy jti then
        modify (redis_delete ("jwt:" +:+ py_str jti)) ;;;
        ret true
      else ret false
  | _ => ret false
  end.

(** ** CredentialPolicy: entropy and crack time *)

(** [str.islower], [str.isupper] and [str.isdigit] of one character, on
    the code points below 256: besides the ASCII letters and digits, the
    letters of Latin-1 (with the ordinal indicators and the micro sign
    among the lowercase ones) and the superscript digits. *)
Definition islower (c : ascii) : bool :=
  let n := Z.of_nat (Ascii.nat_of_ascii c) in
  ((97 <=? n) && (n <=? 122)) || (n =? 170) || (n =? 181) || (n =? 186)
  || ((223 <=? n) && (n <=? 246)) || ((248 <=? n) && (n <=? 255)).
Definition isupper (c : ascii) : bool :=
  let n := Z.of_nat (Ascii.nat_of_ascii c) in
  ((65 <=? n) && (n <=? 90)) || ((192 <=? n) && (n <=? 214))
  || ((216 <=? n) && (n <=? 222)).
Definition isdigit (c : ascii) : bool :=
  let n := Z.of_nat (Ascii.nat_of_ascii c) in
  ((48 <=? n) && (n <=? 57)) || ((178 <=? n) && (n <=? 179)) || (n =? 185).

Definition special_characters : string := "!@#$%^&*()_+-=[]{}|;:,.<>?".

Definition is_special (c : ascii) : bool :=
  existsb (Ascii.eqb c) (list_ascii_of_string special_characters).

(** [any(p(c) for c in password)] *)
Definition any (p : ascii → bool) (password : string) : bool :=
  existsb p (list_ascii_of_string password).

Definition charset_size (password : string) : Z :=
  (if any islower password then 26 else 0)
  + (if any isupper password then 26 else 0)
  + (if any isdigit password then 10 else 0)
  + (if any is_special password then 32 else 0).

Definition log2 (x : R) : R := (ln x / ln 2)%R.

Definition _calculate_password_entropy (password : string) : R :=
  if 0 <? charset_size password
  then (IZR (Z.of_nat (String.length password)) * log2 (IZR (charset_size password)))%R
  else 0%R.

(** [2**x] on floats: the result is out of the binary64 range from
    [x = 1024] on, and Python raises [OverflowError]. *)
Definition pow2 (x : R) : Res R :=
  if Rle_dec 1024 x then Raise OverflowError else Ok (Rpower 2 x).

(** The formatted estimate: [N minutes], [N hours], ... *)
Inductive CrackTime :=
  | LessThanOneMinute
  | Minutes (n : Z)
  | Hours (n : Z)
  | Days (n : Z)
  | Years (n : Z).

Definition CrackTime_text (t : CrackTime) : string :=
  match t with
  | LessThanOneMinute => "Less than 1 minute"
  | Minutes n => pretty n +:+ " minutes"
  | Hours n => pretty n +:+ " hours"
  | Days n => pretty n +:+ " days"
  | Years n => pretty n +:+ " years"
  end.

(** [x // d] followed by [int()]. *)
Definition floor_div (x d : R) : Z := Zfloor (x / d).

Definition _estimate_crack_time (password : string) (entropy : R) : Res CrackTime :=
  let guesses_per_second := 1000000000%R in
  match pow2 entropy with
  | Raise e => Raise e
  | Ok total_combinations =>
      let seconds_to_crack := (total_combinations / (2 * guesses_per_second))%R in
      if Rlt_dec seconds_to_crack 60 then Ok LessThanOneMinute
      else if Rlt_dec seconds_to_crack 3600 then Ok (Minutes (floor_div seconds_to_crack 60))
      else if Rlt_dec seconds_to_crack 86400 then Ok (Hours (floor_div seconds_to_crack 3600))
      else if Rlt_dec seconds_to_crack 31536000 then Ok (Days (floor_div seconds_to_crack 86400))
      else Ok (Years (floor_div seconds_to_crack 31536000))
  end.

(** The duration, in seconds, that a formatted estimate stands for. *)
Definition CrackTime_seconds (t : CrackTime) : Z :=
  match t with
  | LessThanOneMinute => 0
  | Minutes n => n * 60
  | Hours n => n * 3600
  | Days n => n * 86400
  | Years n => n * 31536000
  end.

(** ** CredentialPolicy: validation *)

(** The two entries of [user_context] the validation reads. *)
Record UserContext := mkContext {
  ctx_name : option string;
  ctx_email : option string
}.

Record ValidationResult := mkValidation {
  is_valid : bool;
  strength_score : Z;
  issues : list string;
  suggestions : list string;
  estimated_crack_time : string
}.

(** [str.lower()] on the code points below 256: every uppercase letter
    has its lowercase form 32 places further on, and nothing else changes. *)
Definition lower_char (c : ascii) : ascii :=
  if isupper c then Ascii.ascii_of_nat (Ascii.nat_of_ascii c + 32) else c.

Definition lower (s : string) : string :=
  string_of_list_ascii (List.map lower_char (list_ascii_of_string s)).

(** [needle in hay] on strings. *)
Fixpoint contains (needle hay : string) : bool :=
  String.prefix needle hay
  || match hay with
     | EmptyString => false
     | String _ rest => contains needle rest
     end.

Definition common_passwords : list string :=
  ["password123"; "admin123"; "focusflow123"].

(** An issue appended when its condition holds. *)
Definition issue_if (b : bool) (issue : string) : list string :=
  if b then [issue] else [].

Definition advanced_password_validation (password : string) (user_context : UserContext)
    : Res ValidationResult :=
  let len := Z.of_nat (String.length password) in
  (* Character complexity *)
  let has_upper := any isupper password in
  let has_lower := any islower password in
  let has_digit := any isdigit password in
  let has_special := any is_special password in
  (* Check against common passwords (simplified) *)
  let is_common := bool_decide (lower password ∈ common_passwords) in
  (* Check for personal information *)
  let user_name := lower (default "" (ctx_name user_context)) in
  let user_email := split_head "@" (lower (default "" (ctx_email user_context))) in
  let has_name := truthy user_name && contains user_name (lower password) in
  let has_email := truthy user_email && contains user_email (lower password) in
  (* Entropy calculation *)
  let entropy := _calculate_password_entropy password in
  let issues :=
    issue_if (len <? 12) "Password must be at least 12 characters long"
    ++ issue_if (128 <? len) "Password is too long (max 128 characters)"
    ++ issue_if (negb has_upper) "Add uppercase letters"
    ++ issue_if (negb has_lower) "Add lowercase letters"
    ++ issue_if (negb has_digit) "Add numbers"
    ++ issue_if (negb has_special) "Add special characters"
    ++ issue_if is_common "Password is too common"
    ++ issue_if has_name "Password should not contain your name"
    ++ issue_if has_email "Password should not contain your email"
    ++ (if Rlt_dec entropy 50 then ["Password has low entropy"] else []) in
  let strength_score :=
    (if has_upper then 25 else 0) + (if has_lower then 25 else 0)
    + (if has_digit then 25 else 0) + (if has_special then 25 else 0)
    - (if is_common then 50 else 0)
    - (if has_name then 30 else 0) - (if has_email then 30 else 0) in
  (* Estimate crack time *)
  match _estimate_crack_time password entropy with
  | Raise e => Raise e
  | Ok estimate =>
      (* Final score and validation *)
      let strength_score := Z.max 0 (Z.min 100 strength_score) in
      Ok (mkValidation
            (match issues with [] => true | _ => false end)
            strength_score issues
            (if strength_score <? 80
             then [ "Use a passphrase with multiple words";
                    "Include numbers and special characters";
                    "Make it at least 16 characters long";
                    "Avoid predictable patterns" ]
             else [])
            (CrackTime_text estimate))
  end.

(** ** Runs of calls *)

(** Successive calls of [advanced_rate_limiting] by one client, each with
    its time and its random event id. *)
Fixpoint rate_limit_calls (mgr : Manager) (request : Request) (user_id : option string)
    (action : string) (calls : list (Z * string)) (st : Redis)
    : list (Res bool) * Redis :=
  match calls with
  | [] => ([], st)
  | (now, token_hex) :: rest =>
      let '(r, st1) := advanced_rate_limiting mgr now token_hex request user_id action st in
      let '(rs, st2) := rate_limit_calls mgr request user_id action rest st1 in
      (r :: rs, st2)
  end.

(** Successive TOTP validation attempts of one user: time, event id, code. *)
Fixpoint mfa_attempts (mgr : Manager) (user_id : string)
    (attempts : list (Z * string * string)) (st : Redis) : list (Res bool) * Redis :=
  match attempts with
  | [] => ([], st)
  | (now, token_hex, token) :: rest =>
      let '(r, st1) := validate_mfa_token mgr now token_hex user_id token TOTP st in
      let '(rs, st2) := mfa_attempts mgr user_id rest st1 in
      (r :: rs, st2)
  end.

(** ** Vocabulary of the statements *)

(** The quota and window of an action: its entry in the policy table, or
    the default. *)
Definition limit_of (action : string) : limit_config :=
  default default_limit (rate_limits !! action).

(** The counter keys [advanced_rate_limiting] builds for a request. *)
Definition request_keys (mgr : Manager) (request : Request) (user_id : option string)
    (action : string) : list string :=
  rate_limit_keys mgr action (_get_client_ip request) user_id
    (default "unknown" (headers request !! "user-agent")).

(** The identifier dimensions of a request as the policy names them, each
    under the action: the client address, the user when a user id is
    given (an empty one counts as none), and the digest of the user
    agent. *)
Definition ip_dimension (action : string) (request : Request) : string :=
  "rate_limit:" +:+ action +:+ ":ip:" +:+ _get_client_ip request.

Definition user_dimension (action user : string) : string :=
  "rate_limit:" +:+ action +:+ ":user:" +:+ user.

Definition agent_dimension (mgr : Manager) (action : string) (request : Request) : string :=
  "rate_limit:" +:+ action +:+ ":ua:"
    +:+ md5_hexdigest mgr (default "unknown" (headers request !! "user-agent")).

Definition dimensions (mgr : Manager) (request : Request) (user_id : option string)
    (action : string) : list string :=
  match user_id with
  | Some user =>
      if truthy user
      then [ip_dimension action request; user_dimension action user;
            agent_dimension mgr action request]
      else [ip_dimension action request; agent_dimension mgr action request]
  | None => [ip_dimension action request; agent_dimension mgr action request]
  end.

(** What a counter key may hold: nothing, or a number. *)
Definition is_counter (o : option rvalue) : Prop :=
  match o with
  | None | Some (RInt _) => True
  | Some _ => False
  end.

(** The count a key stands for: 0 when it is missing or expired. *)
Definition count_of (now : Z) (key : string) (st : Redis) : Z :=
  match redis_get now key st with
  | Some (RInt n) => n
  | _ => 0
  end.

(** The store after the counters of [keys] were incremented at [now]. *)
Definition counters_bumped (now : Z) (action : string) (keys : list string)
    (st st' : Redis) : Prop :=
  (∀ k, k ∈ keys →
        kv st' !! k = Some (mkEntry (RInt (count_of now k st + 1))
                                    (Some (now + window (limit_of action)))))
  ∧ (∀ k, k ∉ keys → kv st' !! k = kv st !! k)
  ∧ sets st' = sets st
  ∧ security_events st' = security_events st
  ∧ security_alerts st' = security_alerts st.

(** Every key of the list is strictly below the quota. *)
Definition under_quota (now : Z) (action key : string) (st : Redis) : Prop :=
  is_counter (redis_get now key st)
  ∧ count_of now key st < requests (limit_of action).

(** The counters of [keys] after [n] admitted calls, the last one at [tl],
    in a window opened at [t0]. *)
Definition counting (t0 : Z) (action : string) (keys : list string)
    (n tl : Z) (st : Redis) : Prop :=
  (n = 0 ∧ ∀ k, k ∈ keys → redis_get t0 k st = None)
  ∨ (0 < n ∧ t0 <= tl
     ∧ ∀ k, k ∈ keys →
            kv st !! k = Some (mkEntry (RInt n) (Some (tl + window (limit_of action))))).

(** The time of the last call of a run, [tl] when the run is empty. *)
Definition last_time (tl : Z) (times : list Z) : Z := default tl (last times).

(** What the refusing branch raises: the HTTP 429 of the policy table's
    entry, or the [KeyError] of the subscript when there is no entry. *)
Definition refusal (action : string) : exn :=
  match rate_limits !! action with
  | Some cfg => HTTPException 429 (DetailRateLimit "Rate limit exceeded" action (window cfg))
  | None => KeyError action
  end.

(** The two failures that the [raise] statements of [validate_jwt_token]
    name. *)
Definition revoked : exn := HTTPException 401 (DetailText "Token has been revoked").
Definition expired : exn := HTTPException 401 (DetailText "Token has expired").

(** The [exp] claim of a token issued at [now], if its type has one. *)
Definition expires_at (now : Z) (token_type : string) : option Z :=
  if String.eqb token_type "access" then Some (now + access_token_expire)
  else if String.eqb token_type "refresh" then Some (now + refresh_token_expire)
  else None.

(** The claims of a token issued for [subject] at [now]. *)
Definition issued_claims (now : Z) (token_hex : string) (subject : jvalue)
    (token_type : string) : gmap string jvalue :=
  let base :=
    <["token_type" := JStr token_type]>
      (<["jti" := JStr token_hex]>
         (<["nbf" := JInt now]> (<["iat" := JInt now]> {["sub" := subject]}))) in
  match expires_at now token_type with
  | Some e => <["exp" := JInt e]> base
  | None => base
  end.

(** The bucket chosen for a number of seconds. *)
Definition format_seconds (seconds_to_crack : R) : CrackTime :=
  if Rlt_dec seconds_to_crack 60 then LessThanOneMinute
  else if Rlt_dec seconds_to_crack 3600 then Minutes (floor_div seconds_to_crack 60)
  else if Rlt_dec seconds_to_crack 86400 then Hours (floor_div seconds_to_crack 3600)
  else if Rlt_dec seconds_to_crack 31536000 then Days (floor_div seconds_to_crack 86400)
  else Years (floor_div seconds_to_crack 31536000).

(** ** Sample inputs *)

(** A manager with the default secret of [core/config.py]; its library
    operations are stand-ins, and its TOTP verifier accepts every code. *)
Definition sample_manager : Manager :=
  mkManager "your-secret-key-change-this-in-production"
            (λ s, s) (λ s, s) (λ s, Some s) (λ _ _ _, Some true)
            (λ _ _ _, "otpauth://totp").

(** A proxied request of the client 10.0.0.1. *)
Definition sample_request : Request :=
  mkRequest (list_to_map [("x-forwarded-for", "10.0.0.1, 172.16.0.9");
                          ("user-agent", "curl/8.0")])
            (Some "172.16.0.9").

Definition sample_event : SecurityEvent :=
  mkEvent "9f2c" (Some "alice") API_ABUSE MEDIUM 0 "10.0.0.1" "curl/8.0"
          (RateLimitDetails "login") 0.6%float.

(** A store whose event log already holds 10,000 events. *)
Definition full_log : Redis :=
  mkRedis ∅ ∅ (replicate (Z.to_nat 10000) sample_event) [].

(** A store in which the client's IP counter for the action [export],
    which has no entry in the policy table, stands at 100. *)
Definition export_store : Redis :=
  mkRedis {[ "rate_limit:export:ip:10.0.0.1" := mkEntry (RInt 100) (Some 3600) ]} ∅ [] [].

(** A token of the legacy [SecurityManager.create_access_token]: signed
    with the same secret and algorithm, with [sub], [iat] and [exp] but
    no [jti]. *)
Definition legacy_claims : gmap string jvalue :=
  list_to_map [("sub", JStr "alice"); ("iat", JInt 0); ("exp", JInt 1800)].

Definition legacy_token : Token :=
  Jwt (secret_key sample_manager) "HS256" legacy_claims.

(** A store in which [alice] has an active TOTP secret. *)
Definition enrolled_store : Redis :=
  mkRedis {[ "mfa_secret:alice" := mkEntry (RBytes "JBSWY3DPEHPK3PXP") None ]} ∅ [] [].

(** The claims of an access token issued to [alice] at time 0. *)
Definition sample_jti : string := "5f4dcc3b5aa765d61d8327deb882cf99".

Definition sample_claims : gmap string jvalue :=
  list_to_map
    [("sub", JStr "alice"); ("iat", JInt 0); ("nbf", JInt 0);
     ("jti", JStr sample_jti); ("token_type", JStr "access"); ("exp", JInt 3600)].

Definition sample_token : Token :=
  Jwt (secret_key sample_manager) "HS256" sample_claims.

(** The two feature vectors of the scoring scenarios. *)
Definition critical_features : list (string * float) :=
  [ ("hour_anomaly", 0); ("new_location", 1); ("new_device", 1);
    ("api_call_frequency", 0); ("data_access_volume", 0);
    ("failed_auth_ratio", 1) ]%float.

Definition low_features : list (string * float) :=
  [ ("hour_anomaly", 0); ("new_location", 0); ("new_device", 0);
    ("api_call_frequency", 0.05); ("data_access_volume", 0.01);
    ("failed_auth_ratio", 0) ]%float.

(** A store that knows the sample client's address and user agent. *)
Definition known_client_store : Redis :=
  mkRedis ∅ {[ "user_ips:alice" := {[ "10.0.0.1" ]};
               "user_agents:alice" := {[ "curl/8.0" ]} ]} [] [].

(** A password of 205 special characters. *)
Definition long_password : string :=
  string_of_list_ascii (repeat "!"%char 205).

(** ** More of the manager *)

(** LRANGE key start stop: the range that LTRIM with the same indices
    keeps. *)
Definition redis_lrange {A} (start stop : Z) (l : list A) : list A :=
  redis_ltrim start stop l.

(** [str()] of an enumeration member, which is what
    [json.dumps(event_data, default=str)] stores for [event_type]. *)
Definition ThreatType_str (t : ThreatType) : string :=
  match t with
  | BRUTE_FORCE => "ThreatType.BRUTE_FORCE"
  | CREDENTIAL_STUFFING => "ThreatType.CREDENTIAL_STUFFING"
  | UNUSUAL_ACTIVITY => "ThreatType.UNUSUAL_ACTIVITY"
  | DATA_EXFILTRATION => "ThreatType.DATA_EXFILTRATION"
  | API_ABUSE => "ThreatType.API_ABUSE"
  end.

Record Dashboard := mkDashboard {
  recent_events : list SecurityEvent;
  active_alerts : list Alert;
  threat_statistics : gmap string Z;
  total_events : Z;
  high_risk_events : Z
}.

(** The loop that counts the events by type. *)
Definition count_threats (events : list SecurityEvent) : gmap string Z :=
  fold_left (λ threat_stats event,
               let threat_type := ThreatType_str (event_type event) in
               <[threat_type := default 0 (threat_stats !! threat_type) + 1]> threat_stats)
            events ∅.

Definition get_security_dashboard_data : M Dashboard :=
  λ st,
    (* Get recent security events *)
    let events := redis_lrange 0 100 (security_events st) in
    (* Get active alerts *)
    let alerts := redis_lrange 0 50 (security_alerts st) in
    (Ok (mkDashboard
           (take 20 events) (take 10 alerts) (count_threats events)
           (Z.of_nat (length events))
           (Z.of_nat (length (List.filter
                                (λ e, PrimFloat.ltb 0.7 (risk_score e)) events)))),
     st).

(** The loop of [_determine_optimal_bcrypt_cost]. [hash_time cost] is the
    time measured for one hash at [cost]; [fuel] bounds the iterations,
    and five are enough between the start at 10 and the guard at 15. *)
Fixpoint calibration_loop (hash_time : Z → float) (fuel : nat) (cost : Z) : Z :=
  match fuel with
  | O => cost
  | S fuel' =>
      if cost <? 15 then
        if PrimFloat.leb 0.25 (hash_time cost) then cost
        else calibration_loop hash_time fuel' (cost + 1)
      else cost
  end.

Definition _determine_optimal_bcrypt_cost (hash_time : Z → float) : Z :=
  let cost := calibration_loop hash_time 5 10 in
  Z.min cost 12.   (* Cap at 12 for reasonable performance *)

Definition MFAMethod_value (m : MFAMethod) : string :=
  match m with
  | TOTP => "totp" | SMS => "sms" | EMAIL => "email" | HARDWARE_KEY => "hardware_key"
  end.

(** What an enrollment returns: the TOTP material, or the acknowledgment
    of a method that is a placeholder. *)
Inductive MfaSetup :=
  | TotpMaterial (setup : TotpSetup)
  | Placeholder (method message : string) (setup_expires_in : Z).

Definition _setup_sms_mfa (user_id : string) : M MfaSetup :=
  ret (Placeholder "sms" "SMS MFA not implemented yet" 300).

Definition _setup_email_mfa (user_id : string) : M MfaSetup :=
  ret (Placeholder "email" "Email MFA not implemented yet" 300).

Definition implement_multi_factor_authentication (mgr : Manager) (now : Z)
    (random_base32 : string) (codes : list string) (user_id : string)
    (method : MFAMethod) : M MfaSetup :=
  match method with
  | TOTP =>
      setup <- _setup_totp_mfa mgr now random_base32 codes user_id ;;
      ret (TotpMaterial setup)
  | SMS => _setup_sms_mfa user_id
  | EMAIL => _setup_email_mfa user_id
  | HARDWARE_KEY =>
      raise (HTTPException 400
               (DetailText ("MFA method " +:+ MFAMethod_value method +:+ " not implemented")))
  end.

(** ** Vocabulary of the further properties *)

(** Logging a list of events one after the other. *)
Definition log_all (events : list SecurityEvent) (st : Redis) : Redis :=
  fold_left (λ s event, snd (_log_security_event event s)) events st.

(** A store in which the sample client's IP counter for [login] stands at
    the quota of 5. *)
Definition login_exhausted_store : Redis :=
  mkRedis {[ "rate_limit:login:ip:10.0.0.1" := mkEntry (RInt 5) (Some 300) ]} ∅ [] [].

(** The name and the e-mail local part that the validation looks for in
    the password. *)
Definition name_in_password (password : string) (user_context : UserContext) : bool :=
  let user_name := lower (default "" (ctx_name user_context)) in
  truthy user_name && contains user_name (lower password).

Definition email_in_password (password : string) (user_context : UserContext) : bool :=
  let user_email := split_head "@" (lower (default "" (ctx_email user_context))) in
  truthy user_email && contains user_email (lower password).

(** The issues of [advanced_password_validation], in the order in which
    they are appended. *)
Definition password_issues (password : string) (user_context : UserContext)
    : list string :=
  issue_if (Z.of_nat (String.length password) <? 12)
           "Password must be at least 12 characters long"
  ++ issue_if (128 <? Z.of_nat (String.length password))
              "Password is too long (max 128 characters)"
  ++ issue_if (negb (any isupper password)) "Add uppercase letters"
  ++ issue_if (negb (any islower password)) "Add lowercase letters"
  ++ issue_if (negb (any isdigit password)) "Add numbers"
  ++ issue_if (negb (any is_special password)) "Add special characters"
  ++ issue_if (bool_decide (lower password ∈ common_passwords)) "Password is too common"
  ++ issue_if (name_in_password password user_context)
              "Password should not contain your name"
  ++ issue_if (email_in_password password user_context)
              "Password should not contain your email"
  ++ (if Rlt_dec (_calculate_password_entropy password) 50
      then ["Password has low entropy"] else []).

(** Occurrence of a string in another up to the case of the letters,
    written without [str.lower]: two characters match when they are equal
    or one is the uppercase letter whose lowercase form, 32 places further
    on, is the other. *)
Definition same_letter (c d : ascii) : bool :=
  let m := Z.of_nat (Ascii.nat_of_ascii c) in
  let n := Z.of_nat (Ascii.nat_of_ascii d) in
  (m =? n) || (isupper c && (n =? m + 32)) || (isupper d && (m =? n + 32)).

Fixpoint prefix_nocase (needle hay : string) : bool :=
  match needle, hay with
  | EmptyString, _ => true
  | String c needle', String d hay' => same_letter c d && prefix_nocase needle' hay'
  | String _ _, EmptyString => false
  end.

Fixpoint contains_nocase (needle hay : string) : bool :=
  prefix_nocase needle hay
  || match hay with
     | EmptyString => false
     | String _ rest => contains_nocase needle rest
     end.

(** A non-empty string that occurs in the password up to case. *)
Definition occurs_nocase (needle password : string) : bool :=
  truthy needle && contains_nocase needle password.

(** Its score before the clamp to 0..100. *)
Definition raw_score (password : string) (user_context : UserContext) : Z :=
  (if any isupper password then 25 else 0) + (if any islower password then 25 else 0)
  + (if any isdigit password then 25 else 0) + (if any is_special password then 25 else 0)
  - (if bool_decide (lower password ∈ common_passwords) then 50 else 0)
  - (if name_in_password password user_context then 30 else 0)
  - (if email_in_password password user_context then 30 else 0).

(** The events that a dashboard key stands for. *)
Definition count_key (key : string) (events : list SecurityEvent) : Z :=
  Z.of_nat (length (List.filter
                      (λ e, bool_decide (ThreatType_str (event_type e) = key)) events)).

(** The event and the alert that a detection at [HIGH] or [CRITICAL]
    writes. *)
Definition detection_event (now current_hour : Z) (token_hex user_id : string)
    (request : Request) (activity_data : gmap string float) (st : Redis)
    : SecurityEvent :=
  let client_ip := _get_client_ip request in
  let user_agent := default "" (headers request !! "user-agent") in
  let features :=
    _extract_behavioral_features current_hour user_id client_ip user_agent activity_data st in
  let risk_score := _calculate_risk_score features in
  mkEvent token_hex (Some user_id) UNUSUAL_ACTIVITY (_determine_threat_level risk_score)
          now client_ip user_agent
          (ThreatDetails features (map_to_list activity_data)) risk_score.

(** The keys under which the manager counts: those of the rate limiter
    and those of the MFA attempts. *)
Definition counter_key (key : string) : bool :=
  String.prefix "rate_limit:" key || String.prefix "mfa_attempts:" key.

(** Every counter key of the store holds a number. *)
Definition counters_numeric (st : Redis) : Prop :=
  ∀ key e, kv st !! key = Some e → counter_key key = true → ∃ n, e_val e = RInt n.

(** A string that [lstrip] leaves as it is: empty, or with a first
    character that is no whitespace. *)
Definition clean_head (l : list ascii) : Prop :=
  match l with
  | c :: _ => is_space c = false
  | [] => True
  end.

(** A second draw of [secrets.token_hex(16)]. *)
Definition other_jti : string := "0cc175b9c0f1b6a831c399e269772661".


(** Each time of the list is at or after the one before it and less than
    [w] seconds later. *)
Fixpoint chained (w t : Z) (times : list Z) : Prop :=
  match times with
  | [] => True
  | t' :: rest => t <= t' < t + w ∧ chained w t' rest
  end.

(** * Properties *)

(** Settle the first comparison [a <? b] or [a <=? b] of the goal from the
    hypotheses. *)
Ltac ltb_true := rewrite (proj2 (Z.ltb_lt _ _)) by (assumption || lia).
Ltac ltb_false := rewrite (proj2 (Z.ltb_ge _ _)) by (assumption || lia).
Ltac leb_false := rewrite (proj2 (Z.leb_gt _ _)) by (assumption || lia).
Ltac leb_true := rewrite (proj2 (Z.leb_le _ _)) by (assumption || lia).

(** ** The event list *)

Lemma redis_ltrim_cap {A} (l : list A) :
  redis_ltrim 0 10000 l = take (Z.to_nat 10001) l.
Proof.
  unfold redis_ltrim.
  change (0 <? 0) with false. change (10000 <? 0) with false. cbv iota.
  set (len := Z.of_nat (length l)).
  assert (Hlen : len = Z.of_nat (length l)) by reflexivity.
  destruct (Z.leb_spec len 10000) as [Hle | Hgt].
  - destruct (Z.ltb_spec (len - 1) 0) as [H0 | H1].
    + destruct l; [reflexivity | simpl in Hlen; lia].
    + destruct (Z.leb_spec len 0) as [H2 | H2]; [lia |].
      cbn [orb]. rewrite drop_0, !take_ge by lia. reflexivity.
  - change (10000 <? 0) with false.
    destruct (Z.leb_spec len 0) as [H2 | H2]; [lia |].
    cbn [orb]. rewrite drop_0. reflexivity.
Qed.

Lemma log_events event st :
  security_events (snd (_log_security_event event st))
  = take (Z.to_nat 10001) (event :: security_events st).
Proof.
  unfold _log_security_event, bind, modify. cbn -[Z.to_nat redis_ltrim].
  rewrite <- redis_ltrim_cap.
  destruct (severity event); reflexivity.
Qed.

(** ** Keys *)

Lemma append_inj_l (p a b : string) : p +:+ a = p +:+ b → a = b.
Proof.
  induction p as [| c p IH]; simpl; intros H; [exact H |].
  injection H as H. auto.
Qed.

Lemma rate_limit_keys_NoDup mgr action ip uid ua :
  NoDup (rate_limit_keys mgr action ip uid ua).
Proof.
  assert (Hiu : ∀ x y, "rate_limit:" +:+ action +:+ ":ip:" +:+ x
                       ≠ "rate_limit:" +:+ action +:+ ":user:" +:+ y).
  { intros x y H. apply append_inj_l, append_inj_l in H. discriminate H. }
  assert (Hia : ∀ x y, "rate_limit:" +:+ action +:+ ":ip:" +:+ x
                       ≠ "rate_limit:" +:+ action +:+ ":ua:" +:+ y).
  { intros x y H. apply append_inj_l, append_inj_l in H. discriminate H. }
  assert (Hua : ∀ x y, "rate_limit:" +:+ action +:+ ":user:" +:+ x
                       ≠ "rate_limit:" +:+ action +:+ ":ua:" +:+ y).
  { intros x y H. apply append_inj_l, append_inj_l in H. discriminate H. }
  unfold rate_limit_keys, if_truthy.
  destruct uid as [u |]; [destruct (truthy u) |]; cbn;
    rewrite !NoDup_cons, !not_elem_of_cons;
    repeat split; auto using not_elem_of_nil, NoDup_nil_2.
Qed.

Lemma ip_key_in_keys mgr action ip uid ua :
  "rate_limit:" +:+ action +:+ ":ip:" +:+ ip ∈ rate_limit_keys mgr action ip uid ua.
Proof.
  unfold rate_limit_keys, if_truthy.
  destruct uid as [u |]; [destruct (truthy u) |]; cbn; apply list_elem_of_here.
Qed.

Lemma mfa_keys_differ u v : "mfa_attempts:" +:+ u ≠ "mfa_secret:" +:+ v.
Proof. cbn. discriminate. Qed.

Lemma mfa_setup_key_differs u v : "mfa_setup:" +:+ u ≠ "mfa_secret:" +:+ v.
Proof. cbn. discriminate. Qed.

(** ** The policy table *)

Lemma limit_of_positive action :
  0 < requests (limit_of action) ∧ 0 < window (limit_of action).
Proof.
  unfold limit_of, rate_limits. cbn [list_to_map foldr uncurry fst snd].
  repeat (rewrite lookup_insert; case_decide; [cbn; lia |]).
  rewrite lookup_empty. cbn. lia.
Qed.

(** Every quota is far below the largest counter value. *)
Lemma limit_of_bound action : requests (limit_of action) < int64_max.
Proof.
  unfold limit_of, rate_limits, int64_max. cbn [list_to_map foldr uncurry fst snd].
  repeat (rewrite lookup_insert; case_decide; [cbn; lia |]).
  rewrite lookup_empty. cbn. lia.
Qed.

(** ** Counters *)

Lemma redis_get_insert_ne now key k e st :
  key ≠ k → redis_get now k (set_kv (λ m, <[key := e]> m) st) = redis_get now k st.
Proof.
  intros Hne. unfold redis_get, set_kv. cbn.
  rewrite lookup_insert_ne by done. reflexivity.
Qed.

Lemma redis_get_expired now now' key st :
  now <= now' → redis_get now key st = None → redis_get now' key st = None.
Proof.
  unfold redis_get, live. intros Hle.
  destruct (kv st !! key) as [[v [d |]] |]; cbn; try done.
  destruct (Z.leb_spec now d), (Z.leb_spec now' d); done || lia.
Qed.

Lemma check_rate_limit_spec now key action st :
  is_counter (redis_get now key st) →
  _check_rate_limit now key action st
  = (Ok (count_of now key st <? requests (limit_of action)), st).
Proof.
  unfold _check_rate_limit, count_of, limit_of, is_counter.
  destruct (redis_get now key st) as [[n | b | u t] |]; try done.
  intros _. destruct (limit_of_positive action) as [Hq _]. unfold limit_of in Hq.
  ltb_true. reflexivity.
Qed.

Lemma increment_spec now key action st :
  is_counter (redis_get now key st) →
  count_of now key st < int64_max →
  _increment_rate_limit_counter now key action st
  = (Ok tt,
     set_kv (λ m, <[key := mkEntry (RInt (count_of now key st + 1))
                                   (Some (now + window (limit_of action)))]> m) st).
Proof.
  unfold _increment_rate_limit_counter, redis_incr, redis_expire, count_of,
    redis_get, is_counter, limit_of.
  destruct (kv st !! key) as [[v d] |] eqn:Hk; cbn [e_val e_deadline].
  - destruct (live now (mkEntry v d)) eqn:Hl.
    + destruct v as [n | b | u t]; try done. intros _ Hmax. ltb_true.
      cbn [kv set_kv]. rewrite lookup_insert_eq.
      replace (live now (mkEntry (RInt (n + 1)) d)) with true by (symmetry; exact Hl).
      cbn [e_val]. unfold set_kv. cbn [kv sets security_events security_alerts].
      rewrite insert_insert_eq. reflexivity.
    + intros _ _. cbn [kv set_kv]. rewrite lookup_insert_eq. cbn [live e_deadline e_val].
      unfold set_kv. cbn [kv sets security_events security_alerts].
      rewrite insert_insert_eq. reflexivity.
  - intros _ _. cbn [kv set_kv]. rewrite lookup_insert_eq. cbn [live e_deadline e_val].
    unfold set_kv. cbn [kv sets security_events security_alerts].
    rewrite insert_insert_eq. reflexivity.
Qed.

Lemma increment_each_spec now action keys : ∀ st,
  NoDup keys →
  (∀ k, k ∈ keys → under_quota now action k st) →
  ∃ st', increment_each now action keys st = (Ok tt, st')
         ∧ counters_bumped now action keys st st'.
Proof.
  pose proof (limit_of_bound action) as Hmax.
  induction keys as [| key rest IH]; intros st Hnd Hc.
  - exists st. split; [reflexivity |]. repeat split; intros k Hk; set_solver.
  - apply NoDup_cons in Hnd as [Hnotin Hnd].
    cbn [increment_each]. unfold bind.
    destruct (Hc key) as [Hkey Hlt]; [left |].
    rewrite increment_spec by (done || lia).
    set (st1 := set_kv _ st).
    assert (Hsame : ∀ k, k ∈ rest → redis_get now k st1 = redis_get now k st).
    { intros k Hk. apply redis_get_insert_ne. intros ->. done. }
    destruct (IH st1 Hnd) as (st' & Hrun & Hb & Ho & Hs & He & Ha).
    { intros k Hk. unfold under_quota, count_of. rewrite Hsame by done.
      apply Hc. by right. }
    exists st'. split; [exact Hrun |].
    split; [| split; [| split; [| split]]].
    + intros k Hk. apply elem_of_cons in Hk as [-> | Hk].
      * rewrite Ho by done. subst st1. cbn. by rewrite lookup_insert_eq.
      * rewrite Hb by done. unfold count_of. by rewrite Hsame.
    + intros k Hk. apply not_elem_of_cons in Hk as [Hne Hk].
      rewrite Ho by done. subst st1. cbn. by rewrite lookup_insert_ne.
    + by rewrite Hs.
    + by rewrite He.
    + by rewrite Ha.
Qed.

Lemma check_each_pass now event action keys st :
  (∀ k, k ∈ keys → under_quota now action k st) →
  check_each now event action keys st = (Ok tt, st).
Proof.
  induction keys as [| key rest IH]; intros H; [reflexivity |].
  cbn [check_each]. unfold bind.
  destruct (H key) as [Hc Hlt]; [left |].
  rewrite check_rate_limit_spec by done.
  ltb_true.
  apply IH. intros k Hk. apply H. by right.
Qed.

Lemma check_each_inv now event action keys st st' :
  check_each now event action keys st = (Ok tt, st') →
  st' = st ∧ ∀ k, k ∈ keys → under_quota now action k st.
Proof.
  induction keys as [| key rest IH]; cbn [check_each].
  - intros [= <-]. split; [done | intros k Hk; set_solver].
  - unfold bind, _check_rate_limit. fold (limit_of action).
    destruct (redis_get now key st) as [[n | b | u t] |] eqn:Hg; try done.
    + destruct (Z.ltb_spec n (requests (limit_of action))) as [Hlt | Hge].
      * intros H. destruct (IH H) as [-> Hrest]. split; [done |].
        intros k [-> | Hk]%elem_of_cons; [| by apply Hrest].
        unfold under_quota, count_of. rewrite Hg. done.
      * destruct (_log_security_event event st) as [[[] | e] st1];
          [destruct (rate_limits !! action) |]; done.
    + intros H. destruct (IH H) as [-> Hrest]. split; [done |].
      intros k [-> | Hk]%elem_of_cons; [| by apply Hrest].
      unfold under_quota, count_of. rewrite Hg.
      split; [done | apply limit_of_positive].
Qed.

(** ** Refusals *)

Lemma log_security_event_ok event st : ∃ st', _log_security_event event st = (Ok tt, st').
Proof.
  unfold _log_security_event, _trigger_security_alert, bind, modify, ret.
  destruct (severity event); eauto.
Qed.

Lemma check_each_refuse now event action keys st :
  (∀ k, k ∈ keys → is_counter (redis_get now k st)) →
  (∃ k, k ∈ keys ∧ requests (limit_of action) <= count_of now k st) →
  check_each now event action keys st
  = (Raise (refusal action), snd (_log_security_event event st)).
Proof.
  induction keys as [| key rest IH]; intros Hc (k & Hk & Hover); [set_solver |].
  cbn [check_each]. unfold bind at 1.
  rewrite check_rate_limit_spec by (apply Hc; left).
  destruct (Z.ltb_spec (count_of now key st) (requests (limit_of action))) as [Hlt | Hge].
  - apply IH.
    + intros k' Hk'. apply Hc. by right.
    + exists k. split; [| done]. apply elem_of_cons in Hk as [-> | Hk]; [lia | done].
  - unfold bind. destruct (log_security_event_ok event st) as (st' & ->). cbn [snd].
    unfold refusal. by destruct (rate_limits !! action).
Qed.

(** ** Event log *)

(** The log after an append: the new event first, the older ones in their
    order, cut after 10,001 entries. *)
Lemma log_security_event_bound event st :
  let st' := snd (_log_security_event event st) in
  security_events st' `prefix_of` event :: security_events st
  ∧ (length (security_events st') <= Z.to_nat 10001)%nat
  ∧ kv st' = kv st.
Proof.
  cbn zeta. rewrite log_events. split; [| split].
  - apply prefix_take.
  - rewrite length_take. lia.
  - unfold _log_security_event, bind, modify, _trigger_security_alert.
    destruct (severity event); reflexivity.
Qed.

(** C2: on a log that holds 10,000 events, an append leaves 10,001 events
    in the log, one more than the bound of 10,000: [ltrim(0, 10000)] keeps
    the indices 0 to 10000 inclusive. *)
Theorem log_holds_10001_events :
  let st' := snd (_log_security_event sample_event full_log) in
  Z.of_nat (length (security_events full_log)) = 10000
  ∧ Z.of_nat (length (security_events st')) = 10001
  ∧ security_events st' = sample_event :: security_events full_log.
Proof.
  cbn zeta. rewrite log_events. split; [| split].
  - unfold full_log. cbn [security_events]. rewrite length_replicate. lia.
  - rewrite length_take. cbn [length]. unfold full_log. cbn [security_events].
    rewrite length_replicate. lia.
  - apply take_ge. cbn [length]. unfold full_log. cbn [security_events].
    rewrite length_replicate. lia.
Qed.

(** ** A window of calls *)

Lemma counting_get t0 action keys n tl st t k :
  counting t0 action keys n tl st → k ∈ keys →
  t0 <= t < t0 + window (limit_of action) →
  is_counter (redis_get t k st) ∧ count_of t k st = n.
Proof.
  intros [[-> H] | (Hn & Htl & H)] Hk Ht; unfold count_of.
  - rewrite (redis_get_expired t0 t) by (lia || auto). done.
  - unfold redis_get. rewrite (H k Hk). cbn.
    leb_true. done.
Qed.

Lemma last_time_cons tl t times : last_time tl (t :: times) = last_time t times.
Proof.
  unfold last_time. destruct times as [| t' times]; [reflexivity |].
  rewrite last_cons. destruct (last _) eqn:E; [reflexivity |].
  apply last_None in E. done.
Qed.

(** ** One client

    The lemmas on the calls of one client for one action. *)

Section Client.

Context (mgr : Manager) (request : Request) (user_id : option string) (action : string).

Abbreviation keys := (request_keys mgr request user_id action).
Abbreviation quota := (requests (limit_of action)).
Abbreviation window_seconds := (window (limit_of action)).

(** A request is allowed only if every dimension is strictly below the
    quota, and then every counter is incremented. *)
Lemma rate_limiting_allowed_inv now token_hex st st' :
  advanced_rate_limiting mgr now token_hex request user_id action st = (Ok true, st') →
  ∀ k, k ∈ keys → under_quota now action k st.
Proof.
  unfold advanced_rate_limiting, bind. fold keys.
  destruct (check_each _ _ _ _ st) as [[[] | e] st1] eqn:Hc; [| done].
  intros _. by apply check_each_inv in Hc as [_ Hc].
Qed.

Lemma rate_limiting_allowed now token_hex st :
  (∀ k, k ∈ keys → under_quota now action k st) →
  ∃ st', advanced_rate_limiting mgr now token_hex request user_id action st = (Ok true, st')
         ∧ counters_bumped now action keys st st'.
Proof.
  intros H. unfold advanced_rate_limiting, bind. fold keys.
  rewrite check_each_pass by done.
  destruct (increment_each_spec now action keys st) as (st' & -> & Hb).
  - apply rate_limit_keys_NoDup.
  - done.
  - exists st'. done.
Qed.

(** When a dimension has reached the quota, the call logs an API-abuse
    event of medium severity and raises [refusal action]. *)
Lemma rate_limiting_refused now token_hex st :
  let client_ip := _get_client_ip request in
  let user_agent := default "unknown" (headers request !! "user-agent") in
  (∀ k, k ∈ keys → is_counter (redis_get now k st)) →
  (∃ k, k ∈ keys ∧ quota <= count_of now k st) →
  ∃ st',
    advanced_rate_limiting mgr now token_hex request user_id action st
    = (Raise (refusal action), st')
    ∧ kv st' = kv st
    ∧ security_events st'
      = take (Z.to_nat 10001)
          (mkEvent token_hex user_id API_ABUSE MEDIUM now client_ip user_agent
                   (RateLimitDetails action) 0.6%float :: security_events st)
    ∧ security_alerts st' = security_alerts st.
Proof.
  intros client_ip user_agent Hc Hover.
  unfold advanced_rate_limiting, bind at 1. fold client_ip user_agent keys.
  rewrite check_each_refuse by done.
  eexists. split; [reflexivity |]. rewrite log_events.
  unfold _log_security_event, bind, modify. cbn. done.
Qed.

Lemma counting_step t0 n tl st t token_hex :
  counting t0 action keys n tl st →
  n < quota →
  t0 <= t < t0 + window_seconds →
  ∃ st', advanced_rate_limiting mgr t token_hex request user_id action st = (Ok true, st')
         ∧ counting t0 action keys (n + 1) t st'.
Proof.
  intros Hc Hn Ht.
  destruct (rate_limiting_allowed t token_hex st)
    as (st' & Hrun & Hb & _).
  { intros k Hk. destruct (counting_get _ _ _ _ _ _ t k Hc Hk Ht) as [? Heq].
    split; [done | lia]. }
  exists st'. split; [exact Hrun |]. right.
  assert (0 <= n) by (destruct Hc as [[-> _] | (? & _)]; lia).
  split; [lia | split; [lia |]].
  intros k Hk. rewrite (Hb k Hk).
  destruct (counting_get _ _ _ _ _ _ t k Hc Hk Ht) as [_ ->]. done.
Qed.

Lemma rate_limit_calls_counting t0 calls : ∀ n tl st,
  counting t0 action keys n tl st →
  n + Z.of_nat (length calls) <= quota →
  Forall (λ c, t0 <= c.1 < t0 + window_seconds) calls →
  ∃ st', rate_limit_calls mgr request user_id action calls st
         = (replicate (length calls) (Ok true), st')
         ∧ counting t0 action keys (n + Z.of_nat (length calls)) (last_time tl calls.*1) st'.
Proof.
  induction calls as [| [t token_hex] rest IH]; intros n tl st Hc Hn Hw.
  - exists st. split; [reflexivity |]. cbn. by rewrite Z.add_0_r.
  - apply Forall_cons in Hw as [Ht Hw]. cbn [length] in Hn. cbn [fst] in Ht.
    destruct (counting_step t0 n tl st t token_hex)
      as (st1 & Hrun & Hc1); [done | lia | done |].
    destruct (IH (n + 1) t st1) as (st' & Hrest & Hc'); [done | lia | done |].
    exists st'. cbn [rate_limit_calls]. rewrite Hrun, Hrest.
    split; [reflexivity |]. cbn [fmap list_fmap]. rewrite last_time_cons. cbn [length fst].
    replace (n + Z.of_nat (S (length rest))) with (n + 1 + Z.of_nat (length rest)) by lia.
    exact Hc'.
Qed.

(** The keys the limiter builds are the dimensions of the request. *)
Lemma request_keys_dimensions : keys = dimensions mgr request user_id action.
Proof.
  unfold request_keys, rate_limit_keys, dimensions, if_truthy.
  destruct user_id as [u |]; [destruct (truthy u) |]; reflexivity.
Qed.

(** C4: the dimensions counted are the client address, the user when a
    user id is given, and the user-agent digest, each under the action.
    Starting from a fresh window, exactly [quota] calls are admitted and
    leave the counter of every dimension at [quota]; the next call, made
    while the counters are served, is refused on every dimension; once the
    counters have expired a call is admitted again; and a call is admitted
    only if every dimension is strictly below the quota. *)
Theorem rate_limit_quota_window st t0 calls t_last :
  let dims := dimensions mgr request user_id action in
  (∀ k, k ∈ dims → redis_get t0 k st = None) →
  Z.of_nat (length calls) = quota →
  Forall (λ c, t0 <= c.1 < t0 + window_seconds) calls →
  last calls.*1 = Some t_last →
  ∃ st',
    rate_limit_calls mgr request user_id action calls st
    = (replicate (length calls) (Ok true), st')
    ∧ (∀ k, k ∈ dims →
         kv st' !! k = Some (mkEntry (RInt quota) (Some (t_last + window_seconds))))
    ∧ (∀ t token_hex, t0 <= t <= t_last + window_seconds →
         (∀ k, k ∈ dims → _check_rate_limit t k action st' = (Ok false, st'))
         ∧ ∃ st'',
             advanced_rate_limiting mgr t token_hex request user_id action st'
             = (Raise (refusal action), st'')
             ∧ kv st'' = kv st')
    ∧ (∀ t token_hex, t_last + window_seconds < t →
         fst (advanced_rate_limiting mgr t token_hex request user_id action st')
         = Ok true)
    ∧ (∀ t token_hex s s',
         advanced_rate_limiting mgr t token_hex request user_id action s = (Ok true, s') →
         ∀ k, k ∈ dims → count_of t k s < quota).
Proof.
  intros dims. subst dims. rewrite <- request_keys_dimensions.
  intros Hfresh Hlen Hwin Hlast.
  destruct (limit_of_positive action) as [Hq Hw].
  destruct (rate_limit_calls_counting t0 calls 0 t0 st) as (st' & Hrun & Hc).
  { left. done. }
  { lia. }
  { exact Hwin. }
  exists st'. split; [exact Hrun |].
  assert (Hlt : last_time t0 calls.*1 = t_last) by (unfold last_time; by rewrite Hlast).
  rewrite Hlt in Hc. cbn [Z.add] in Hc. rewrite Hlen in Hc.
  destruct Hc as [[Hz _] | (_ & Htl & Hkv)]; [lia |].
  assert (Hcount : ∀ t k, k ∈ keys → t <= t_last + window_seconds →
            redis_get t k st' = Some (RInt quota)).
  { intros t k Hk Ht. unfold redis_get. rewrite (Hkv k Hk). cbn.
    leb_true. done. }
  assert (Hgone : ∀ t k, k ∈ keys → t_last + window_seconds < t →
            redis_get t k st' = None).
  { intros t k Hk Ht. unfold redis_get. rewrite (Hkv k Hk). cbn.
    leb_false. done. }
  split; [exact Hkv |]. split; [| split].
  - intros t token_hex Ht.
    assert (Hall : ∀ k, k ∈ keys → _check_rate_limit t k action st' = (Ok false, st')).
    { intros k Hk. rewrite check_rate_limit_spec; unfold count_of;
        rewrite (Hcount t k Hk) by lia; [| done].
      by rewrite Z.ltb_irrefl. }
    split; [exact Hall |].
    destruct (rate_limiting_refused t token_hex st') as (st'' & Hcall & Hkv' & _).
    + intros k Hk. by rewrite (Hcount t k Hk) by lia.
    + eexists. split; [apply (ip_key_in_keys mgr action _ user_id _) |].
      unfold count_of.
      rewrite (Hcount t _ (ip_key_in_keys mgr action _ user_id _)) by lia. lia.
    + eauto.
  - intros t token_hex Ht.
    destruct (rate_limiting_allowed t token_hex st') as (s1 & -> & _); [| done].
    intros k Hk. unfold under_quota, count_of.
    rewrite (Hgone t k Hk Ht). split; [done | apply limit_of_positive].
  - intros t token_hex s s' Hcall k Hk.
    by destruct (rate_limiting_allowed_inv _ _ _ _ Hcall k Hk).
Qed.

End Client.

Lemma rate_limit_quota_window_witness :
  ∃ st',
    rate_limit_calls sample_manager sample_request (Some "alice") "password_reset"
      [(0, "e1"); (10, "e2"); (20, "e3")] empty_redis
    = ([Ok true; Ok true; Ok true], st')
    ∧ kv st' !! "rate_limit:password_reset:ip:10.0.0.1"
      = Some (mkEntry (RInt 3) (Some 3620))
    ∧ kv st' !! "rate_limit:password_reset:user:alice"
      = Some (mkEntry (RInt 3) (Some 3620))
    ∧ kv st' !! "rate_limit:password_reset:ua:curl/8.0"
      = Some (mkEntry (RInt 3) (Some 3620))
    ∧ fst (advanced_rate_limiting sample_manager 3620 "e4" sample_request (Some "alice")
             "password_reset" st')
      = Raise (HTTPException 429
                 (DetailRateLimit "Rate limit exceeded" "password_reset" 3600))
    ∧ fst (advanced_rate_limiting sample_manager 3621 "e5" sample_request (Some "alice")
             "password_reset" st') = Ok true.
Proof.
  destruct (rate_limit_quota_window sample_manager sample_request (Some "alice")
              "password_reset" empty_redis 0 [(0, "e1"); (10, "e2"); (20, "e3")] 20)
    as (st' & Hrun & Hkv & Hin & Hout & _).
  - intros k _. reflexivity.
  - reflexivity.
  - repeat constructor; vm_compute; congruence.
  - reflexivity.
  - exists st'. split; [exact Hrun |].
    split; [apply Hkv; apply list_elem_of_here |].
    split; [apply Hkv; apply list_elem_of_further, list_elem_of_here |].
    split; [apply Hkv; do 2 apply list_elem_of_further; apply list_elem_of_here |].
    split.
    + destruct (Hin 3620 "e4") as (_ & st'' & -> & _); [vm_compute; split; congruence |].
      reflexivity.
    + apply (Hout 3621 "e5"). vm_compute. congruence.
Defined.

(** ** An action outside the policy table *)

(** C3: for the action [export], which has no entry in the policy table,
    the check uses the default quota of 100, the abuse event is logged,
    and the call then fails with [KeyError] instead of the rate-limit
    failure with [retry_after = 3600]. *)
Theorem rate_limit_default_action_keyerror :
  rate_limits !! "export" = None
  ∧ _check_rate_limit 60 "rate_limit:export:ip:10.0.0.1" "export" export_store
    = (Ok false, export_store)
  ∧ advanced_rate_limiting sample_manager 60 "e1" sample_request (Some "alice")
      "export" export_store
    = (Raise (KeyError "export"),
       mkRedis (kv export_store) ∅
         [mkEvent "e1" (Some "alice") API_ABUSE MEDIUM 60 "10.0.0.1" "curl/8.0"
                  (RateLimitDetails "export") 0.6%float] []).
Proof. split; [| split]; vm_compute; reflexivity. Qed.

(** ** MFA attempts *)

Lemma mfa_limit : limit_of "mfa_attempt" = mkLimit 10 300.
Proof. reflexivity. Qed.

Lemma mfa_setup_attempts_differ u v : "mfa_setup:" +:+ u ≠ "mfa_attempts:" +:+ v.
Proof. cbn. discriminate. Qed.

(** The TOTP check reads the store and leaves it as it is. *)
Lemma validate_totp_reads mgr now user_id token st :
  snd (_validate_totp_token mgr now user_id token st) = st.
Proof.
  unfold _validate_totp_token.
  destruct (redis_get _ _ st) as [v |]; [| done].
  destruct (truthy _); [| done]. by destruct (fernet_decrypt _ _).
Qed.

(** It depends on the store through the key [mfa_secret:user] alone. *)
Lemma validate_totp_same_secret mgr now user_id token st st' :
  kv st' !! ("mfa_secret:" +:+ user_id) = kv st !! ("mfa_secret:" +:+ user_id) →
  fst (_validate_totp_token mgr now user_id token st')
  = fst (_validate_totp_token mgr now user_id token st).
Proof.
  intros H. unfold _validate_totp_token, redis_get. rewrite H.
  destruct (kv st !! _) as [e |]; [| done].
  destruct (live now e); [| done].
  destruct (truthy _); [| done]. by destruct (fernet_decrypt _ _).
Qed.

Lemma validate_totp_no_secret mgr now user_id token st :
  redis_get now ("mfa_secret:" +:+ user_id) st = None →
  _validate_totp_token mgr now user_id token st = (Ok false, st).
Proof. unfold _validate_totp_token. by intros ->. Qed.

Lemma mfa_admitted mgr now token_hex user_id token st :
  let key := "mfa_attempts:" +:+ user_id in
  is_counter (redis_get now key st) →
  count_of now key st < 10 →
  validate_mfa_token mgr now token_hex user_id token TOTP st
  = (fst (_validate_totp_token mgr now user_id token st),
     set_kv (λ m, <[key := mkEntry (RInt (count_of now key st + 1)) (Some (now + 300))]> m) st).
Proof.
  intros key Hc Hlt. unfold validate_mfa_token, bind. fold key.
  rewrite check_rate_limit_spec, mfa_limit by done. cbn [requests].
  ltb_true.
  rewrite increment_spec, mfa_limit by (done || (unfold int64_max; lia)). cbn [window].
  set (st1 := set_kv _ st).
  rewrite (surjective_pairing (_validate_totp_token mgr now user_id token st1)).
  rewrite validate_totp_reads. f_equal.
  apply validate_totp_same_secret. subst st1. cbn.
  apply lookup_insert_ne, mfa_keys_differ.
Qed.

Lemma mfa_not_totp mgr now token_hex user_id token method st :
  method ≠ TOTP →
  is_counter (redis_get now ("mfa_attempts:" +:+ user_id) st) →
  fst (validate_mfa_token mgr now token_hex user_id token method st) = Ok false.
Proof.
  intros Hm Hc. unfold validate_mfa_token, bind.
  rewrite check_rate_limit_spec by done.
  pose proof (limit_of_bound "mfa_attempt") as Hmax.
  destruct (Z.ltb_spec (count_of now ("mfa_attempts:" +:+ user_id) st)
              (requests (limit_of "mfa_attempt"))) as [Hlt | Hge].
  - rewrite increment_spec by (done || lia). by destruct method.
  - by destruct (log_security_event_ok
                   (mkEvent token_hex (Some user_id) BRUTE_FORCE HIGH now "unknown"
                      "unknown" MfaBruteForceDetails 0.8%float) st) as (st' & ->).
Qed.

Lemma mfa_throttled mgr now token_hex user_id token method st :
  let key := "mfa_attempts:" +:+ user_id in
  let event := mkEvent token_hex (Some user_id) BRUTE_FORCE HIGH now "unknown" "unknown"
                       MfaBruteForceDetails 0.8%float in
  is_counter (redis_get now key st) →
  10 <= count_of now key st →
  ∃ st', validate_mfa_token mgr now token_hex user_id token method st = (Ok false, st')
         ∧ security_events st' = take (Z.to_nat 10001) (event :: security_events st)
         ∧ kv st' = kv st.
Proof.
  intros key event Hc Hge. unfold validate_mfa_token, bind at 1. fold key.
  rewrite check_rate_limit_spec, mfa_limit by done. cbn [requests].
  ltb_false.
  unfold bind. fold event.
  destruct (log_security_event_ok event st) as (st' & Hlog). rewrite Hlog.
  exists st'. split; [done |].
  replace st' with (snd (_log_security_event event st)) by (by rewrite Hlog).
  split; [apply log_events | apply log_security_event_bound].
Qed.

Lemma mfa_attempts_counting mgr user_id t0 st attempts : ∀ n tl st1,
  let key := "mfa_attempts:" +:+ user_id in
  counting t0 "mfa_attempt" [key] n tl st1 →
  kv st1 !! ("mfa_secret:" +:+ user_id) = kv st !! ("mfa_secret:" +:+ user_id) →
  n + Z.of_nat (length attempts) <= 10 →
  Forall (λ a, t0 <= a.1.1 < t0 + 300) attempts →
  ∃ st',
    mfa_attempts mgr user_id attempts st1
    = (map (λ a, fst (_validate_totp_token mgr a.1.1 user_id a.2 st)) attempts, st')
    ∧ counting t0 "mfa_attempt" [key] (n + Z.of_nat (length attempts))
               (last_time tl attempts.*1.*1) st'
    ∧ kv st' !! ("mfa_secret:" +:+ user_id) = kv st !! ("mfa_secret:" +:+ user_id)
    ∧ security_events st' = security_events st1.
Proof.
  induction attempts as [| [[t token_hex] token] rest IH]; intros n tl st1 key Hc Hs Hn Hw.
  - exists st1. cbn. rewrite Z.add_0_r. done.
  - apply Forall_cons in Hw as [Ht Hw]. cbn [length] in Hn. cbn [fst] in Ht.
    destruct (counting_get t0 "mfa_attempt" [key] n tl st1 t key Hc) as [Hcnt Heq].
    { constructor. } { by rewrite mfa_limit. }
    pose proof (mfa_admitted mgr t token_hex user_id token st1 Hcnt) as Hrun.
    fold key in Hrun. rewrite Heq in Hrun. specialize (Hrun ltac:(lia)).
    set (st2 := set_kv _ st1) in Hrun.
    destruct (IH (n + 1) t st2) as (st' & Hrest & Hc' & Hs' & He').
    { right. assert (0 <= n) by (destruct Hc as [[-> _] | (? & _)]; lia).
      split; [lia | split; [lia |]].
      intros k ->%list_elem_of_singleton. rewrite mfa_limit. subst st2. cbn.
      by rewrite lookup_insert_eq. }
    { subst st2. cbn. rewrite lookup_insert_ne by apply mfa_keys_differ. done. }
    { lia. } { done. }
    exists st'. cbn [mfa_attempts]. rewrite Hrun, Hrest. cbn [map fst snd].
    rewrite (validate_totp_same_secret mgr t user_id token st st1) by (symmetry; done).
    split; [reflexivity |]. cbn [fmap list_fmap fst]. rewrite last_time_cons.
    cbn [length].
    replace (n + Z.of_nat (S (length rest))) with (n + 1 + Z.of_nat (length rest)) by lia.
    split; [exact Hc' | split; [exact Hs' | by rewrite He']].
Qed.

(** C7: with the quota of 10 attempts per 300 seconds, the first ten TOTP
    attempts of a user inside the window each return what the TOTP check
    returns and log nothing; one more attempt before the counter expires
    returns false whatever the code, the method and the verifier are, logs
    a brute-force event of high severity, and leaves the counter as it is. *)
Theorem mfa_attempt_quota mgr user_id st t0 attempts t_last :
  redis_get t0 ("mfa_attempts:" +:+ user_id) st = None →
  Z.of_nat (length attempts) = 10 →
  Forall (λ a, t0 <= a.1.1 < t0 + 300) attempts →
  last attempts.*1.*1 = Some t_last →
  rate_limits !! "mfa_attempt" = Some (mkLimit 10 300)
  ∧ ∃ st',
      mfa_attempts mgr user_id attempts st
      = (map (λ a, fst (_validate_totp_token mgr a.1.1 user_id a.2 st)) attempts, st')
      ∧ security_events st' = security_events st
      ∧ ∀ t token_hex token method, t0 <= t < t_last + 300 →
          ∃ st'',
            validate_mfa_token mgr t token_hex user_id token method st' = (Ok false, st'')
            ∧ security_events st''
              = take (Z.to_nat 10001)
                  (mkEvent token_hex (Some user_id) BRUTE_FORCE HIGH t "unknown" "unknown"
                           MfaBruteForceDetails 0.8%float :: security_events st')
            ∧ kv st'' = kv st'.
Proof.
  intros Hfresh Hlen Hwin Hlast. split; [reflexivity |].
  set (key := "mfa_attempts:" +:+ user_id).
  destruct (mfa_attempts_counting mgr user_id t0 st attempts 0 t0 st)
    as (st' & Hrun & Hc & _ & He).
  { left. split; [done |]. by intros k ->%list_elem_of_singleton. }
  { done. } { lia. } { done. }
  exists st'. split; [exact Hrun |]. split; [exact He |].
  intros t token_hex token method Ht.
  assert (Hlt : last_time t0 attempts.*1.*1 = t_last) by (unfold last_time; by rewrite Hlast).
  rewrite Hlt, Hlen in Hc. cbn [Z.add] in Hc.
  destruct Hc as [[Hz _] | (_ & Htl & Hkv)]; [lia |].
  specialize (Hkv key ltac:(constructor)). rewrite mfa_limit in Hkv. cbn [window] in Hkv.
  assert (Hget : redis_get t key st' = Some (RInt 10)).
  { unfold redis_get. rewrite Hkv. cbn.
    leb_true. done. }
  apply mfa_throttled; unfold count_of; fold key; rewrite Hget; [done | lia].
Qed.

Lemma mfa_attempt_quota_witness :
  ∃ st',
    mfa_attempts sample_manager "alice"
      [(0, "e", "000000"); (1, "e", "000001"); (2, "e", "000002"); (3, "e", "000003");
       (4, "e", "000004"); (5, "e", "000005"); (6, "e", "000006"); (7, "e", "000007");
       (8, "e", "000008"); (9, "e", "000009")] enrolled_store
    = (replicate 10 (Ok true), st')
    ∧ fst (validate_mfa_token sample_manager 10 "e" "alice" "000010" TOTP st') = Ok false
    ∧ length (security_events
                (snd (validate_mfa_token sample_manager 10 "e" "alice" "000010" TOTP st')))
      = 1%nat.
Proof.
  destruct (mfa_attempt_quota sample_manager "alice" enrolled_store 0
              [(0, "e", "000000"); (1, "e", "000001"); (2, "e", "000002");
               (3, "e", "000003"); (4, "e", "000004"); (5, "e", "000005");
               (6, "e", "000006"); (7, "e", "000007"); (8, "e", "000008");
               (9, "e", "000009")] 9)
    as (_ & st' & Hrun & He & Hnext).
  - reflexivity.
  - reflexivity.
  - repeat constructor; vm_compute; congruence.
  - reflexivity.
  - exists st'. split; [exact Hrun |].
    destruct (Hnext 10 "e" "000010" TOTP) as (st'' & -> & He'' & _);
      [split; vm_compute; congruence |].
    split; [reflexivity |]. cbn [snd]. rewrite He'', He. reflexivity.
Defined.

(** C8: while no live value is stored under [mfa_secret:user], MFA
    validation never returns true, and returns false, for every code,
    method and verifier; TOTP enrollment writes the key [mfa_setup:user]
    only, so the same holds after it. *)
Theorem mfa_requires_active_secret mgr st now token_hex user_id token method :
  redis_get now ("mfa_secret:" +:+ user_id) st = None →
  fst (validate_mfa_token mgr now token_hex user_id token method st) ≠ Ok true
  ∧ (is_counter (redis_get now ("mfa_attempts:" +:+ user_id) st) →
     fst (validate_mfa_token mgr now token_hex user_id token method st) = Ok false
     ∧ ∀ t0 random_base32 codes enrolled,
         let st1 := snd (_setup_totp_mfa mgr t0 random_base32 codes enrolled st) in
         kv st1 = <["mfa_setup:" +:+ enrolled :=
                      mkEntry (RBytes (fernet_encrypt mgr random_base32))
                              (Some (t0 + 300))]> (kv st)
         ∧ fst (validate_mfa_token mgr now token_hex user_id token method st1)
           = Ok false).
Proof.
  assert (Hmain : ∀ s,
            is_counter (redis_get now ("mfa_attempts:" +:+ user_id) s) →
            redis_get now ("mfa_secret:" +:+ user_id) s = None →
            fst (validate_mfa_token mgr now token_hex user_id token method s) = Ok false).
  { intros s Hc Hs. destruct method; try (apply mfa_not_totp; done).
    destruct (Z.lt_ge_cases (count_of now ("mfa_attempts:" +:+ user_id) s) 10) as [Hlt | Hge].
    - rewrite mfa_admitted by done. cbn [fst].
      by rewrite validate_totp_no_secret.
    - by destruct (mfa_throttled mgr now token_hex user_id token TOTP s Hc Hge)
        as (s' & -> & _). }
  intros Hs. split.
  - destruct (redis_get now ("mfa_attempts:" +:+ user_id) st) as [[n | b | u t] |] eqn:Hg;
      try (rewrite Hmain by (by rewrite ?Hg); done);
      unfold validate_mfa_token, bind, _check_rate_limit; rewrite Hg; done.
  - intros Hc. split; [by apply Hmain |].
    intros t0 random_base32 codes enrolled st1.
    split; [reflexivity |].
    apply Hmain; subst st1; cbn; unfold redis_setex.
    + rewrite redis_get_insert_ne by apply mfa_setup_attempts_differ. exact Hc.
    + rewrite redis_get_insert_ne by apply mfa_setup_key_differs. exact Hs.
Qed.

Lemma mfa_requires_active_secret_witness :
  fst (validate_mfa_token sample_manager 30 "e" "alice" "123456" TOTP
         (snd (_setup_totp_mfa sample_manager 0 "JBSWY3DPEHPK3PXP" [] "alice" empty_redis)))
  = Ok false.
Proof.
  destruct (mfa_requires_active_secret sample_manager empty_redis 30 "e" "alice"
              "123456" TOTP) as [_ H].
  - reflexivity.
  - destruct H as [_ H]; [exact I |].
    apply (H 0 "JBSWY3DPEHPK3PXP" [] "alice").
Defined.

(** ** Tokens *)

(** A token of the legacy token issuer verifies and is accepted although
    the store holds no record at all: a payload without [jti] is returned
    without the ledger being read. *)
Lemma validate_accepts_without_ledger :
  validate_jwt_token sample_manager 60 legacy_token empty_redis
  = (Ok legacy_claims, empty_redis)
  ∧ kv empty_redis = ∅.
Proof. split; vm_compute; reflexivity. Qed.

(** C1: for a token whose signature and claims verify and whose payload
    has a truthy [jti], validation without a live ledger entry does not
    fail with Revoked.  The [HTTPException] raised for it inside the [try]
    is no [ExpiredSignatureError], so the clause [except jwt.JWTError] is
    evaluated, and the module [jwt] has no such attribute: the call fails
    with [AttributeError].  The payload is returned only if the ledger
    holds a live, non-empty entry for the [jti]. *)
Theorem validate_absent_ledger_attribute_error mgr now token st payload :
  jwt_decode now (secret_key mgr) [jwt_algorithm] true token = Decoded payload →
  py_truthy (payload !! "jti") = true →
  let jti := payload !! "jti" in
  (redis_get now ("jwt:" +:+ py_str jti) st = None →
   validate_jwt_token mgr now token st = (Raise no_JWTError, st))
  ∧ no_JWTError ≠ revoked
  ∧ (∀ p st', validate_jwt_token mgr now token st = (Ok p, st') →
       p = payload ∧ st' = st
       ∧ ∃ v, redis_get now ("jwt:" +:+ py_str jti) st = Some v
              ∧ truthy (rvalue_bytes v) = true).
Proof.
  intros Hdec Hjti jti. unfold validate_jwt_token. rewrite Hdec. fold jti.
  fold jti in Hjti. rewrite Hjti.
  unfold bind, ret, raise. split; [| split].
  - intros ->. reflexivity.
  - discriminate.
  - intros p st'. destruct (redis_get _ _ st) as [v |]; [| done].
    destruct (truthy (rvalue_bytes v)) eqn:Hv; [| done].
    intros [= <- <-]. eauto.
Qed.

(** The sample token, whose ledger entry was never written. *)
Lemma validate_absent_ledger_attribute_error_witness :
  validate_jwt_token sample_manager 60 sample_token empty_redis
  = (Raise (AttributeError "module 'jwt' has no attribute 'JWTError'"), empty_redis).
Proof.
  apply (validate_absent_ledger_attribute_error sample_manager 60 sample_token
           empty_redis sample_claims).
  - reflexivity.
  - reflexivity.
  - reflexivity.
Defined.

(** *** Issued tokens *)

Lemma issued_claims_lookup now token_hex subject token_type :
  let claims := issued_claims now token_hex subject token_type in
  claims !! "sub" = Some subject
  ∧ claims !! "jti" = Some (JStr token_hex)
  ∧ claims !! "iat" = Some (JInt now)
  ∧ claims !! "nbf" = Some (JInt now)
  ∧ claims !! "exp" = JInt <$> expires_at now token_type
  ∧ claims !! "aud" = None.
Proof.
  unfold issued_claims. destruct (expires_at now token_type); cbn zeta;
    repeat split; by simplify_map_eq.
Qed.

Lemma create_token_spec mgr now token_hex subject token_type st :
  create_secure_jwt_token mgr now token_hex {["sub" := subject]} token_type st
  = (Ok (Jwt (secret_key mgr) jwt_algorithm
             (issued_claims now token_hex subject token_type)),
     redis_setex now ("jwt:" +:+ token_hex)
       (if String.eqb token_type "access"
        then access_token_expire else refresh_token_expire)
       (RJson subject token_type) st).
Proof.
  unfold create_secure_jwt_token, bind, modify, ret, jwt_encode, issued_claims, expires_at.
  destruct (String.eqb token_type "access"); [| destruct (String.eqb token_type "refresh")];
    by simplify_map_eq.
Qed.

(** Decoding a token issued for a string subject, from its issue time on. *)
Lemma decode_issued mgr now token_hex (subject : string) token_type t verify_exp :
  now <= t →
  jwt_decode t (secret_key mgr) [jwt_algorithm] verify_exp
    (Jwt (secret_key mgr) jwt_algorithm
         (issued_claims now token_hex (JStr subject) token_type))
  = match expires_at now token_type with
    | Some e =>
        if verify_exp && (e <=? t) then ExpiredSignatureError
        else Decoded (issued_claims now token_hex (JStr subject) token_type)
    | None => Decoded (issued_claims now token_hex (JStr subject) token_type)
    end.
Proof.
  intros Ht. unfold jwt_decode.
  rewrite bool_decide_eq_true_2 by done.
  rewrite bool_decide_eq_true_2 by (apply list_elem_of_singleton; done).
  cbn [andb].
  destruct (issued_claims_lookup now token_hex (JStr subject) token_type)
    as (-> & -> & -> & -> & -> & ->).
  unfold check_claim, check_no_audience, check_string. cbn [py_truthy].
  ltb_false.
  destruct (expires_at now token_type) as [e |]; cbn [fmap option_fmap option_map].
  - destruct verify_exp; cbn [andb]; [| done]. by destruct (e <=? t).
  - by destruct verify_exp.
Qed.

Lemma token_hex_truthy token_hex : String.length token_hex = 32%nat → truthy token_hex = true.
Proof. by destruct token_hex. Qed.

(** Validation of an issued token: expiry first, then the ledger, whose
    refusal ends in [AttributeError]. *)
Lemma validate_issued mgr now token_hex (subject : string) token_type t st :
  truthy token_hex = true → now <= t →
  let claims := issued_claims now token_hex (JStr subject) token_type in
  let ledger :=
    match redis_get t ("jwt:" +:+ token_hex) st with
    | Some v => if truthy (rvalue_bytes v) then Ok claims else Raise no_JWTError
    | None => Raise no_JWTError
    end in
  validate_jwt_token mgr t (Jwt (secret_key mgr) jwt_algorithm claims) st
  = (match expires_at now token_type with
     | Some e => if e <=? t then Raise expired else ledger
     | None => ledger
     end, st).
Proof.
  intros Hhex Ht. cbn zeta. unfold validate_jwt_token.
  rewrite decode_issued by done. cbn [andb].
  assert (Hjti := proj1 (proj2 (issued_claims_lookup now token_hex (JStr subject)
                                   token_type))).
  cbn zeta in Hjti.
  destruct (expires_at now token_type) as [e |]; [destruct (e <=? t); [reflexivity |] |];
    rewrite Hjti; cbn [py_truthy py_str]; rewrite Hhex; unfold bind, ret, raise;
    (destruct (redis_get _ _ st) as [v |]; [destruct (truthy (rvalue_bytes v)) |];
     reflexivity).
Qed.

(** Revocation of an issued token deletes its ledger entry, also after the
    token has expired. *)
Lemma revoke_issued mgr now token_hex (subject : string) token_type t st :
  truthy token_hex = true → now <= t →
  revoke_jwt_token mgr t
    (Jwt (secret_key mgr) jwt_algorithm
         (issued_claims now token_hex (JStr subject) token_type)) st
  = (Ok true, redis_delete ("jwt:" +:+ token_hex) st).
Proof.
  intros Hhex Ht. unfold revoke_jwt_token. rewrite decode_issued by done. cbn [andb].
  replace (match expires_at now token_type with
           | Some _ | _ => Decoded (issued_claims now token_hex (JStr subject) token_type)
           end)
    with (Decoded (issued_claims now token_hex (JStr subject) token_type))
    by (by destruct (expires_at now token_type)).
  destruct (issued_claims_lookup now token_hex (JStr subject) token_type) as (_ & -> & _).
  cbn [py_truthy py_str]. by rewrite Hhex.
Qed.

(** An access token issued at time 0 and revoked once it has expired is
    refused as expired: the expiry is checked before the ledger. *)
Lemma revoked_expired_token_reports_expiry :
  ∃ token st1 st2,
    create_secure_jwt_token sample_manager 0 sample_jti {["sub" := JStr "alice"]}
      "access" empty_redis = (Ok token, st1)
    ∧ revoke_jwt_token sample_manager 3600 token st1 = (Ok true, st2)
    ∧ validate_jwt_token sample_manager 3600 token st2 = (Raise expired, st2)
    ∧ expired ≠ revoked.
Proof.
  eexists _, _, _. split; [vm_compute; reflexivity |].
  split; [vm_compute; reflexivity |].
  split; [vm_compute; reflexivity | discriminate].
Qed.

(** C5: the first half of the round trip holds and the second does not.
    An access token issued for a string subject validates, from its issue
    until its expiry, to a payload that carries the subject.  But a token
    of any type that is revoked and then validated before its expiry does
    not fail with Revoked: the [HTTPException] raised for the missing
    ledger entry reaches [except jwt.JWTError], which the module [jwt]
    does not have, and the call fails with [AttributeError]; from its
    expiry on the token fails with Expired. *)
Theorem revoked_token_attribute_error mgr st now token_hex (subject : string) :
  String.length token_hex = 32%nat →
  (∃ token payload st1,
     create_secure_jwt_token mgr now token_hex {["sub" := JStr subject]} "access" st
     = (Ok token, st1)
     ∧ payload !! "sub" = Some (JStr subject)
     ∧ ∀ t, now <= t < now + access_token_expire →
            validate_jwt_token mgr t token st1 = (Ok payload, st1))
  ∧ (∀ token_type, ∃ token st1,
       create_secure_jwt_token mgr now token_hex {["sub" := JStr subject]} token_type st
       = (Ok token, st1)
       ∧ ∀ t1 t2, now <= t1 → now <= t2 →
           ∃ st2,
             revoke_jwt_token mgr t1 token st1 = (Ok true, st2)
             ∧ validate_jwt_token mgr t2 token st2
               = (Raise (match expires_at now token_type with
                         | Some e => if e <=? t2 then expired else no_JWTError
                         | None => no_JWTError
                         end), st2))
  ∧ no_JWTError ≠ revoked.
Proof.
  intros Hhex%token_hex_truthy. split; [| split; [| discriminate]].
  - eexists _, _, _. rewrite create_token_spec. split; [reflexivity |].
    split; [apply issued_claims_lookup |].
    intros t Ht. rewrite validate_issued by (done || lia).
    cbn [expires_at String.eqb Ascii.eqb Bool.eqb]. leb_false.
    unfold redis_get, redis_setex, set_kv. cbn [kv]. rewrite lookup_insert_eq.
    cbn [live e_deadline e_val]. leb_true. reflexivity.
  - intros token_type. eexists _, _. rewrite create_token_spec. split; [reflexivity |].
    intros t1 t2 Ht1 Ht2. eexists. rewrite revoke_issued by done.
    split; [reflexivity |]. rewrite validate_issued by done.
    unfold redis_get, redis_delete, set_kv. cbn [kv]. rewrite lookup_delete_eq.
    destruct (expires_at now token_type) as [e |]; [| done]. by destruct (e <=? t2).
Qed.

(** An access token issued to [alice] at time 0, revoked at 10 and
    validated at 20. *)
Lemma revoked_token_attribute_error_witness :
  ∃ token st1 st2,
    create_secure_jwt_token sample_manager 0 sample_jti {["sub" := JStr "alice"]}
      "access" empty_redis = (Ok token, st1)
    ∧ revoke_jwt_token sample_manager 10 token st1 = (Ok true, st2)
    ∧ validate_jwt_token sample_manager 20 token st2
      = (Raise (AttributeError "module 'jwt' has no attribute 'JWTError'"), st2).
Proof.
  destruct (revoked_token_attribute_error sample_manager empty_redis 0 sample_jti
              "alice" eq_refl) as (_ & Hrevoke & _).
  destruct (Hrevoke "access") as (token & st1 & Hc & Hr).
  destruct (Hr 10 20) as (st2 & Hr2 & Hv); [lia | lia |].
  exists token, st1, st2. split; [exact Hc |]. split; [exact Hr2 |].
  rewrite Hv. reflexivity.
Defined.

(** ** Risk scenarios *)

(** C6: when the extracted features are new location 1, new device 1,
    failed-auth ratio 1 and 0 elsewhere, the risk score is the binary64
    sum 0.3 + 0.25 + 0.4, which is 0.95 up to one unit in the last place;
    the threat level is critical and the response requires blocking. *)
Theorem risk_scenario_critical now current_hour token_hex user_id request activity st :
  _extract_behavioral_features current_hour user_id (_get_client_ip request)
    (default "" (headers request !! "user-agent")) activity st = critical_features →
  _calculate_risk_score critical_features = 0.95000000000000007%float
  ∧ within (1 / 2 ^ 53)%Q (_calculate_risk_score critical_features) (95 # 100)%Q
  ∧ _determine_threat_level (_calculate_risk_score critical_features) = CRITICAL
  ∧ ∃ st',
      ai_powered_threat_detection now current_hour token_hex user_id request activity st
      = (Ok (mkResponse (_calculate_risk_score critical_features) "critical"
                        ["block_access"; "alert_admin"; "require_account_verification"]
                        true), st').
Proof.
  intros Hf.
  assert (Hs : _calculate_risk_score critical_features = 0.95000000000000007%float)
    by (vm_compute; reflexivity).
  assert (Hl : _determine_threat_level (_calculate_risk_score critical_features) = CRITICAL)
    by (vm_compute; reflexivity).
  split; [exact Hs |]. split; [| split; [exact Hl |]].
  - unfold within. rewrite Hs. vm_compute. discriminate.
  - unfold ai_powered_threat_detection. rewrite Hf, Hl. cbn [SecurityLevel_value].
    unfold bind.
    destruct (log_security_event_ok
                (mkEvent token_hex (Some user_id) UNUSUAL_ACTIVITY CRITICAL now
                   (_get_client_ip request) (default "" (headers request !! "user-agent"))
                   (ThreatDetails critical_features (map_to_list activity))
                   (_calculate_risk_score critical_features)) st) as (st' & ->).
    exists st'. reflexivity.
Qed.

Lemma risk_scenario_critical_witness :
  ∃ st',
    ai_powered_threat_detection 0 12 "e1" "alice" sample_request
      (list_to_map [("failed_auths", 1%float); ("total_auths", 1%float)]) empty_redis
    = (Ok (mkResponse 0.95000000000000007%float "critical"
                      ["block_access"; "alert_admin"; "require_account_verification"]
                      true), st').
Proof.
  destruct (risk_scenario_critical 0 12 "e1" "alice" sample_request
              (list_to_map [("failed_auths", 1%float); ("total_auths", 1%float)])
              empty_redis) as (Hs & _ & _ & st' & Hrun).
  - vm_compute. reflexivity.
  - exists st'. rewrite Hrun, Hs. reflexivity.
Defined.

(** C9, counterexample: for the feature vector with call frequency 0.05
    and data volume 0.01 the score is 0.05 * 0.15 + 0.01 * 0.1 = 0.0085;
    it is more than 0.0009 away from 0.0075. *)
Lemma low_risk_score_is_not_0075 :
  ¬ within (9 # 10000)%Q (_calculate_risk_score low_features) (75 # 10000)%Q.
Proof. unfold within. vm_compute. intros H. apply H. reflexivity. Qed.

(** C9, amended: for that feature vector the risk score is 0.0085 (up to
    one unit in the last place of binary64), the threat level is low, the
    response does not require blocking, and nothing is logged. *)
Theorem risk_scenario_low now current_hour token_hex user_id request activity st :
  _extract_behavioral_features current_hour user_id (_get_client_ip request)
    (default "" (headers request !! "user-agent")) activity st = low_features →
  _calculate_risk_score low_features = 0.0085%float
  ∧ within (1 / 2 ^ 53)%Q (_calculate_risk_score low_features) (85 # 10000)%Q
  ∧ _determine_threat_level (_calculate_risk_score low_features) = LOW
  ∧ ai_powered_threat_detection now current_hour token_hex user_id request activity st
    = (Ok (mkResponse (_calculate_risk_score low_features) "low" [] false), st).
Proof.
  intros Hf.
  assert (Hs : _calculate_risk_score low_features = 0.0085%float)
    by (vm_compute; reflexivity).
  assert (Hl : _determine_threat_level (_calculate_risk_score low_features) = LOW)
    by (vm_compute; reflexivity).
  split; [exact Hs |]. split; [| split; [exact Hl |]].
  - unfold within. rewrite Hs. vm_compute. discriminate.
  - unfold ai_powered_threat_detection. rewrite Hf, Hl. reflexivity.
Qed.

Lemma risk_scenario_low_witness :
  ai_powered_threat_detection 0 12 "e1" "alice" sample_request
    (list_to_map [("calls_per_minute", 5%float); ("data_accessed_mb", 10%float)])
    known_client_store
  = (Ok (mkResponse 0.0085%float "low" [] false), known_client_store).
Proof.
  destruct (risk_scenario_low 0 12 "e1" "alice" sample_request
              (list_to_map [("calls_per_minute", 5%float); ("data_accessed_mb", 10%float)])
              known_client_store) as (Hs & _ & _ & Hrun).
  - vm_compute. reflexivity.
  - rewrite Hrun, Hs. reflexivity.
Defined.

(** ** Entropy and crack time *)

Lemma charset_size_range password :
  charset_size password = 0 ∨ 10 <= charset_size password <= 94.
Proof. unfold charset_size. repeat destruct (any _ _); lia. Qed.

Lemma ln_2_pos : (0 < ln 2)%R.
Proof. pose proof ln_lt_2. lra. Qed.

Lemma log2_pow2 (n : nat) : log2 (2 ^ n) = INR n.
Proof.
  unfold log2. rewrite ln_pow by lra. pose proof ln_2_pos. field. lra.
Qed.

Lemma log2_le x y : (0 < x)%R → (x <= y)%R → (log2 x <= log2 y)%R.
Proof.
  intros Hx [Hlt | ->]; [| lra]. unfold log2.
  apply Rmult_le_compat_r.
  - left. apply Rinv_0_lt_compat, ln_2_pos.
  - left. by apply ln_increasing.
Qed.

Lemma log2_range c : 1 <= c <= 94 → (0 <= log2 (IZR c) < 8)%R.
Proof.
  intros [Hlo Hhi].
  assert (H1 : (1 <= IZR c)%R) by (apply IZR_le in Hlo; exact Hlo).
  assert (H94 : (IZR c <= 94)%R) by (apply IZR_le in Hhi; exact Hhi).
  split.
  - replace 0%R with (log2 (2 ^ 0)) by (rewrite log2_pow2; reflexivity).
    apply log2_le; simpl; lra.
  - apply Rle_lt_trans with (log2 94); [apply log2_le; lra |].
    replace 8%R with (log2 (2 ^ 8)) by (rewrite log2_pow2; simpl; lra).
    unfold log2. apply Rmult_lt_compat_r.
    + apply Rinv_0_lt_compat, ln_2_pos.
    + apply ln_increasing; simpl; lra.
Qed.

(** The entropy of every password is non-negative. *)
Lemma entropy_nonneg password : (0 <= _calculate_password_entropy password)%R.
Proof.
  unfold _calculate_password_entropy.
  destruct (Z.ltb_spec 0 (charset_size password)) as [Hpos | _]; [| lra].
  destruct (charset_size_range password) as [H0 | Hr]; [lia |].
  apply Rmult_le_pos.
  - apply IZR_le. lia.
  - apply log2_range. lia.
Qed.

(** A password of at most 128 characters has less than 1024 bits. *)
Lemma entropy_below_1024 password :
  (String.length password <= 128)%nat →
  (_calculate_password_entropy password < 1024)%R.
Proof.
  intros Hlen. unfold _calculate_password_entropy.
  destruct (Z.ltb_spec 0 (charset_size password)) as [Hpos | _]; [| lra].
  destruct (charset_size_range password) as [H0 | Hr]; [lia |].
  destruct (log2_range (charset_size password)) as [Hl0 Hl8]; [lia |].
  assert (Hn0 : (0 <= IZR (Z.of_nat (String.length password)))%R) by (apply IZR_le; lia).
  assert (Hn : (IZR (Z.of_nat (String.length password)) <= 128)%R) by (apply IZR_le; lia).
  nra.
Qed.

Lemma estimate_crack_time_eq password entropy :
  _estimate_crack_time password entropy
  = match pow2 entropy with
    | Ok total => Ok (format_seconds (total / (2 * 1000000000)))
    | Raise e => Raise e
    end.
Proof.
  unfold _estimate_crack_time, format_seconds.
  destruct (pow2 entropy); [| reflexivity].
  repeat destruct (Rlt_dec _ _); reflexivity.
Qed.

(** [floor(s / u) * u] lies between [u] and [s] when [s] is at least [u]. *)
Lemma floor_div_unit s u :
  0 < u → (IZR u <= s)%R →
  u <= floor_div s (IZR u) * u ∧ (IZR (floor_div s (IZR u) * u) <= s)%R.
Proof.
  intros Hu Hk. unfold floor_div.
  assert (HuR : (0 < IZR u)%R) by (apply IZR_lt; exact Hu).
  destruct (Zfloor_bound (s / IZR u)) as [Hlo _].
  rewrite mult_IZR.
  split.
  - assert (1 <= Zfloor (s / IZR u)); [| nia].
    apply Zfloor_lub.
    apply Rmult_le_reg_r with (IZR u); [exact HuR |].
    unfold Rdiv. rewrite Rmult_assoc, Rinv_l by lra. lra.
  - apply Rmult_le_compat_r with (r := IZR u) in Hlo; [| lra].
    unfold Rdiv in Hlo. rewrite Rmult_assoc, Rinv_l in Hlo by lra. lra.
Qed.

Lemma floor_div_mono s1 s2 u :
  0 < u → (s1 <= s2)%R → floor_div s1 (IZR u) * u <= floor_div s2 (IZR u) * u.
Proof.
  intros Hu Hs. apply Z.mul_le_mono_nonneg_r; [lia |].
  unfold floor_div. apply Zfloor_le.
  apply Rmult_le_compat_r; [| exact Hs].
  left. apply Rinv_0_lt_compat, IZR_lt. exact Hu.
Qed.

(** The duration of the bucket is monotone in the number of seconds. *)
Lemma format_seconds_mono s1 s2 :
  (s1 <= s2)%R →
  CrackTime_seconds (format_seconds s1) <= CrackTime_seconds (format_seconds s2).
Proof.
  intros Hs.
  pose proof (floor_div_mono s1 s2 60 ltac:(lia) Hs) as M1.
  pose proof (floor_div_mono s1 s2 3600 ltac:(lia) Hs) as M2.
  pose proof (floor_div_mono s1 s2 86400 ltac:(lia) Hs) as M3.
  pose proof (floor_div_mono s1 s2 31536000 ltac:(lia) Hs) as M4.
  pose proof (floor_div_unit s1 60 ltac:(lia)) as A1.
  pose proof (floor_div_unit s1 3600 ltac:(lia)) as A2.
  pose proof (floor_div_unit s1 86400 ltac:(lia)) as A3.
  pose proof (floor_div_unit s2 60 ltac:(lia)) as B1.
  pose proof (floor_div_unit s2 3600 ltac:(lia)) as B2.
  pose proof (floor_div_unit s2 86400 ltac:(lia)) as B3.
  pose proof (floor_div_unit s2 31536000 ltac:(lia)) as B4.
  unfold format_seconds.
  repeat destruct (Rlt_dec _ _); cbn [CrackTime_seconds]; try lra; try lia;
    repeat match goal with
           | H : (IZR ?a <= ?s)%R → _ |- _ =>
               first [ specialize (H ltac:(lra)); destruct H | clear H ]
           end;
    repeat match goal with
           | H : (IZR ?a <= ?s)%R, H' : (?s < IZR ?b)%R |- _ =>
               assert (a < b) by (apply lt_IZR; lra); clear H
           end;
    lia.
Qed.

(** Where both estimates exist, the one for the larger entropy stands for
    at least as long a time. *)
Lemma crack_time_monotone password1 password2 entropy1 entropy2 t1 t2 :
  (entropy2 <= entropy1)%R →
  _estimate_crack_time password1 entropy1 = Ok t1 →
  _estimate_crack_time password2 entropy2 = Ok t2 →
  CrackTime_seconds t2 <= CrackTime_seconds t1.
Proof.
  intros He. rewrite !estimate_crack_time_eq. unfold pow2.
  destruct (Rle_dec 1024 entropy1); [done |].
  destruct (Rle_dec 1024 entropy2); [done |].
  intros [= <-] [= <-]. apply format_seconds_mono.
  apply Rmult_le_compat_r; [lra |].
  apply Rle_Rpower; lra.
Qed.

(** Below 1024 bits, and so for every password of at most 128 characters,
    the estimate exists. *)
Lemma crack_time_defined password :
  (String.length password <= 128)%nat →
  ∃ t, _estimate_crack_time password (_calculate_password_entropy password) = Ok t.
Proof.
  intros Hlen%entropy_below_1024. rewrite estimate_crack_time_eq. unfold pow2.
  destruct (Rle_dec 1024 _); [lra | eauto].
Qed.

(** So the validation of a password within the length limit returns a
    result. *)
Lemma password_validation_defined password user_context :
  (String.length password <= 128)%nat →
  ∃ result, advanced_password_validation password user_context = Ok result.
Proof.
  intros [t Ht]%crack_time_defined. unfold advanced_password_validation.
  rewrite Ht. eauto.
Qed.

Lemma entropy_of_long_password : _calculate_password_entropy long_password = 1025%R.
Proof.
  unfold _calculate_password_entropy.
  replace (charset_size long_password) with 32 by (vm_compute; reflexivity).
  replace (String.length long_password) with 205%nat by (vm_compute; reflexivity).
  change (0 <? 32) with true. cbv iota. change (Z.of_nat 205) with 205.
  replace (IZR 32) with (2 ^ 5)%R by (simpl; lra).
  rewrite log2_pow2. simpl. lra.
Qed.

Lemma estimate_crack_time_overflow password entropy :
  (1024 <= entropy)%R → _estimate_crack_time password entropy = Raise OverflowError.
Proof.
  intros He. unfold _estimate_crack_time, pow2.
  destruct (Rle_dec 1024 entropy); [reflexivity | lra].
Qed.

(** C10: the password of 205 special characters has 205 * log2(32) = 1025
    bits of entropy; [2**entropy] overflows, no crack-time estimate is
    produced, and the validation of that password fails with the same
    error whatever the user context is. *)
Theorem crack_time_overflow :
  String.length long_password = 205%nat
  ∧ charset_size long_password = 32
  ∧ _calculate_password_entropy long_password = 1025%R
  ∧ _estimate_crack_time long_password (_calculate_password_entropy long_password)
    = Raise OverflowError
  ∧ ∀ user_context,
      advanced_password_validation long_password user_context = Raise OverflowError.
Proof.
  split; [vm_compute; reflexivity |]. split; [vm_compute; reflexivity |].
  split; [apply entropy_of_long_password |].
  assert (H : _estimate_crack_time long_password (_calculate_password_entropy long_password)
              = Raise OverflowError).
  { apply estimate_crack_time_overflow. rewrite entropy_of_long_password. lra. }
  split; [exact H |].
  intros user_context. unfold advanced_password_validation. by rewrite H.
Qed.

(** * Further properties *)

(** ** The event log and the alert queue *)

Lemma take_app_take {A} (n : nat) (a b : list A) :
  take n (a ++ take n b) = take n (a ++ b).
Proof.
  rewrite !take_app, take_take. f_equal. f_equal. lia.
Qed.

Lemma log_all_snoc events event st :
  log_all (events ++ [event]) st = snd (_log_security_event event (log_all events st)).
Proof. unfold log_all. by rewrite fold_left_app. Qed.

(** X1: after one or more events are logged one after the other, the log
    is these events, the last logged first, followed by the older
    entries, cut after 10,001 entries: only the oldest entries are
    dropped, and the order is never changed. *)
Theorem log_all_events events event st :
  security_events (log_all (events ++ [event]) st)
  = take (Z.to_nat 10001) (event :: rev events ++ security_events st).
Proof.
  revert event. induction events as [| e rest IH] using rev_ind; intros event.
  - rewrite log_all_snoc. apply log_events.
  - rewrite log_all_snoc, log_events, IH.
    rewrite rev_app_distr. cbn [rev app].
    apply (take_app_take _ [event]).
Qed.



(** ** The rate limiter *)

(** X3: for an action of the policy table, a call made when some counter
    of the request has reached the quota raises HTTP 429 with
    [retry_after] equal to the action's window, logs one API-abuse event
    of medium severity at the head of the log, raises no alert and leaves
    every counter as it is. *)
Theorem rate_limit_refusal_configured mgr now token_hex request user_id action cfg st :
  rate_limits !! action = Some cfg →
  (∀ k, k ∈ request_keys mgr request user_id action → is_counter (redis_get now k st)) →
  (∃ k, k ∈ request_keys mgr request user_id action ∧ requests cfg <= count_of now k st) →
  ∃ st',
    advanced_rate_limiting mgr now token_hex request user_id action st
    = (Raise (HTTPException 429
                (DetailRateLimit "Rate limit exceeded" action (window cfg))), st')
    ∧ kv st' = kv st
    ∧ security_events st'
      = take (Z.to_nat 10001)
          (mkEvent token_hex user_id API_ABUSE MEDIUM now (_get_client_ip request)
                   (default "unknown" (headers request !! "user-agent"))
                   (RateLimitDetails action) 0.6%float :: security_events st)
    ∧ security_alerts st' = security_alerts st.
Proof.
  intros Hcfg Hc Hover.
  destruct (rate_limiting_refused mgr request user_id action now token_hex st)
    as (st' & Hrun & Hrest); [done | |].
  - unfold limit_of. by rewrite Hcfg.
  - exists st'. split; [| exact Hrest].
    rewrite Hrun. unfold refusal. by rewrite Hcfg.
Qed.

(** A store in which the sample client has used up its five logins. *)
Lemma rate_limit_refusal_configured_witness :
  fst (advanced_rate_limiting sample_manager 100 "e1" sample_request None "login"
         login_exhausted_store)
  = Raise (HTTPException 429 (DetailRateLimit "Rate limit exceeded" "login" 300)).
Proof.
  destruct (rate_limit_refusal_configured sample_manager 100 "e1" sample_request None
              "login" (mkLimit 5 300) login_exhausted_store) as (st' & -> & _).
  - reflexivity.
  - intros k Hk. vm_compute in Hk.
    apply elem_of_cons in Hk as [-> | Hk]; [exact I |].
    apply elem_of_cons in Hk as [-> | Hk]; [exact I |].
    by apply elem_of_nil in Hk.
  - exists "rate_limit:login:ip:10.0.0.1". split; [| vm_compute; congruence].
    vm_compute. apply list_elem_of_here.
  - reflexivity.
Defined.

Lemma counting_rebase t0 t0' action keys n tl st :
  counting t0 action keys n tl st → 0 < n → t0' <= tl →
  counting t0' action keys n tl st.
Proof.
  intros [[-> _] | (Hn & _ & H)] Hpos Hle; [lia |]. right. done.
Qed.

Lemma rate_limit_calls_chained mgr request user_id action calls : ∀ n t st,
  counting t action (request_keys mgr request user_id action) n t st →
  0 < n →
  n + Z.of_nat (length calls) <= requests (limit_of action) →
  chained (window (limit_of action)) t calls.*1 →
  ∃ st', rate_limit_calls mgr request user_id action calls st
         = (replicate (length calls) (Ok true), st')
         ∧ counting (last_time t calls.*1) action (request_keys mgr request user_id action)
                    (n + Z.of_nat (length calls)) (last_time t calls.*1) st'.
Proof.
  induction calls as [| [t' token_hex] rest IH]; intros n t st Hc Hpos Hn Hch.
  - exists st. split; [reflexivity |]. cbn. by rewrite Z.add_0_r.
  - cbn [fmap list_fmap fst chained] in Hch. destruct Hch as [Ht Hch].
    cbn [length] in Hn.
    destruct (counting_step mgr request user_id action t n t st t' token_hex)
      as (st1 & Hrun & Hc1); [done | lia | done |].
    destruct (IH (n + 1) t' st1) as (st' & Hrest & Hc'); [| lia | lia | done |].
    { apply (counting_rebase t); [done | lia | lia]. }
    exists st'. cbn [rate_limit_calls]. rewrite Hrun, Hrest.
    split; [reflexivity |]. cbn [fmap list_fmap fst length]. rewrite last_time_cons.
    replace (n + Z.of_nat (S (length rest))) with (n + 1 + Z.of_nat (length rest)) by lia.
    exact Hc'.
Qed.

(** X4: the window slides. Every admitted call sets the expiry of the
    counters to a full window from that call, so calls that each come
    less than a window after the one before count against one quota,
    however long ago the first of them was: after [quota] such calls, a
    further call less than a window after the last is refused. *)
Theorem rate_limit_window_slides mgr request user_id action st t1 token_hex1 calls :
  let quota := requests (limit_of action) in
  let window_seconds := window (limit_of action) in
  let t_last := last_time t1 calls.*1 in
  (∀ k, k ∈ request_keys mgr request user_id action → redis_get t1 k st = None) →
  Z.of_nat (length ((t1, token_hex1) :: calls)) = quota →
  chained window_seconds t1 calls.*1 →
  ∃ st',
    rate_limit_calls mgr request user_id action ((t1, token_hex1) :: calls) st
    = (replicate (length ((t1, token_hex1) :: calls)) (Ok true), st')
    ∧ ∀ t token_hex, t < t_last + window_seconds →
        ∃ st'',
          advanced_rate_limiting mgr t token_hex request user_id action st'
          = (Raise (refusal action), st'')
          ∧ kv st'' = kv st'.
Proof.
  intros quota window_seconds t_last Hfresh Hlen Hch.
  destruct (limit_of_positive action) as [Hq Hw].
  destruct (counting_step mgr request user_id action t1 0 t1 st t1 token_hex1)
    as (st1 & Hrun1 & Hc1); [by left | lia | lia |].
  cbn [length] in Hlen.
  destruct (rate_limit_calls_chained mgr request user_id action calls 1 t1 st1)
    as (st' & Hrun & Hc); [done | lia | fold quota; lia | done |].
  exists st'. split.
  { cbn [rate_limit_calls]. by rewrite Hrun1, Hrun. }
  intros t token_hex Ht. fold t_last in Hc.
  replace (1 + Z.of_nat (length calls)) with quota in Hc by lia.
  destruct Hc as [[Hz _] | (_ & _ & Hkv)]; [lia |].
  assert (Hcount : ∀ k, k ∈ request_keys mgr request user_id action →
            redis_get t k st' = Some (RInt quota)).
  { intros k Hk. unfold redis_get. rewrite (Hkv k Hk). cbn. fold window_seconds.
    leb_true. done. }
  destruct (rate_limiting_refused mgr request user_id action t token_hex st')
    as (st'' & Hcall & Hkv' & _).
  - intros k Hk. by rewrite (Hcount k Hk).
  - eexists. split; [apply (ip_key_in_keys mgr action _ user_id _) |].
    unfold count_of.
    rewrite (Hcount _ (ip_key_in_keys mgr action _ user_id _)). fold quota. lia.
  - eauto.
Qed.

(** Five logins, each 299 seconds after the one before: the sixth, 1495
    seconds after the first, is refused. *)
Lemma rate_limit_window_slides_witness :
  ∃ st',
    rate_limit_calls sample_manager sample_request None "login"
      [(0, "e"); (299, "e"); (598, "e"); (897, "e"); (1196, "e")] empty_redis
    = (replicate 5 (Ok true), st')
    ∧ fst (advanced_rate_limiting sample_manager 1495 "e" sample_request None "login" st')
      = Raise (HTTPException 429 (DetailRateLimit "Rate limit exceeded" "login" 300)).
Proof.
  destruct (rate_limit_window_slides sample_manager sample_request None "login"
              empty_redis 0 "e" [(299, "e"); (598, "e"); (897, "e"); (1196, "e")])
    as (st' & Hrun & Hnext).
  - intros k _. reflexivity.
  - reflexivity.
  - vm_compute. repeat split; congruence.
  - exists st'. split; [exact Hrun |].
    destruct (Hnext 1495 "e") as (st'' & -> & _); [vm_compute; congruence |].
    reflexivity.
Defined.

(** ** Hash-cost calibration *)

Lemma calibration_loop_S hash_time fuel cost :
  calibration_loop hash_time (S fuel) cost
  = if cost <? 15 then
      if PrimFloat.leb 0.25 (hash_time cost) then cost
      else calibration_loop hash_time fuel (cost + 1)
    else cost.
Proof. reflexivity. Qed.

Lemma calibration_loop_range hash_time fuel : ∀ cost,
  cost <= calibration_loop hash_time fuel cost <= Z.max cost 15.
Proof.
  induction fuel as [| fuel IH]; intros cost; cbn [calibration_loop]; [lia |].
  destruct (Z.ltb_spec cost 15); [| lia].
  destruct (PrimFloat.leb _ _); [lia |].
  specialize (IH (cost + 1)). lia.
Qed.

Lemma calibration_loop_fuel hash_time fuel : ∀ cost,
  (Z.to_nat (15 - cost) <= fuel)%nat →
  calibration_loop hash_time fuel cost
  = calibration_loop hash_time (Z.to_nat (15 - cost)) cost.
Proof.
  induction fuel as [| fuel IH]; intros cost Hf.
  - by replace (Z.to_nat (15 - cost)) with 0%nat by lia.
  - rewrite calibration_loop_S. destruct (Z.ltb_spec cost 15) as [Hlt | Hge].
    + replace (Z.to_nat (15 - cost)) with (S (Z.to_nat (15 - (cost + 1)))) by lia.
      rewrite calibration_loop_S. ltb_true.
      destruct (PrimFloat.leb _ _); [done |]. apply IH. lia.
    + by replace (Z.to_nat (15 - cost)) with 0%nat by lia.
Qed.

(** X5: whatever the measured hash times are, the calibrated cost is 10,
    11 or 12; it is 10 exactly when the hash at cost 10 takes at least
    the 0.25 s target, and it is 12 as soon as the hashes at cost 10 and
    11 are both faster than the target, whatever the costs 12 to 14
    measure. The loop stops by its guard: more iterations than five never
    change the result. *)
Theorem bcrypt_cost_range hash_time :
  let cost := _determine_optimal_bcrypt_cost hash_time in
  10 <= cost <= 12
  ∧ (cost = 10 ↔ PrimFloat.leb 0.25 (hash_time 10) = true)
  ∧ (PrimFloat.leb 0.25 (hash_time 10) = false →
     PrimFloat.leb 0.25 (hash_time 11) = false → cost = 12)
  ∧ ∀ fuel, (5 <= fuel)%nat →
      Z.min (calibration_loop hash_time fuel 10) 12 = cost.
Proof.
  cbn zeta. unfold _determine_optimal_bcrypt_cost.
  pose proof (calibration_loop_range hash_time 5 10) as Hr.
  split; [lia |]. split; [| split].
  - rewrite calibration_loop_S. change (10 <? 15) with true. cbv iota.
    destruct (PrimFloat.leb 0.25 (hash_time 10)); [done |].
    pose proof (calibration_loop_range hash_time 4 (10 + 1)) as Hr'.
    split; [intros H; exfalso; lia | done].
  - intros H10 H11. do 2 rewrite calibration_loop_S.
    change (10 <? 15) with true. change (10 + 1 <? 15) with true. cbv iota.
    change (10 + 1) with 11. rewrite H10, H11.
    pose proof (calibration_loop_range hash_time 3 (11 + 1)) as Hr'. lia.
  - intros fuel Hf. rewrite (calibration_loop_fuel hash_time fuel 10) by (cbn; lia).
    reflexivity.
Qed.

(** ** MFA enrollment *)

(** X6: enrollment by SMS or e-mail returns the acknowledgment that the
    method is not implemented and writes nothing; enrollment with a
    hardware key raises HTTP 400 and writes nothing; only TOTP enrollment
    changes the store, and the one key it writes is [mfa_setup:user]. *)
Theorem mfa_enrollment_by_method mgr now random_base32 codes user_id st :
  implement_multi_factor_authentication mgr now random_base32 codes user_id SMS st
  = (Ok (Placeholder "sms" "SMS MFA not implemented yet" 300), st)
  ∧ implement_multi_factor_authentication mgr now random_base32 codes user_id EMAIL st
    = (Ok (Placeholder "email" "Email MFA not implemented yet" 300), st)
  ∧ implement_multi_factor_authentication mgr now random_base32 codes user_id
      HARDWARE_KEY st
    = (Raise (HTTPException 400 (DetailText "MFA method hardware_key not implemented")), st)
  ∧ ∃ setup st',
      implement_multi_factor_authentication mgr now random_base32 codes user_id TOTP st
      = (Ok (TotpMaterial setup), st')
      ∧ secret setup = random_base32
      ∧ backup_codes setup = codes
      ∧ (∀ k, k ≠ "mfa_setup:" +:+ user_id → kv st' !! k = kv st !! k)
      ∧ sets st' = sets st
      ∧ security_events st' = security_events st
      ∧ security_alerts st' = security_alerts st.
Proof.
  repeat split; try reflexivity.
  eexists _, _. split; [reflexivity |]. cbn.
  repeat split. intros k Hk. by rewrite lookup_insert_ne.
Qed.

(** X7: the secret staged by a TOTP enrollment at [now] can be read back,
    encrypted, up to and including the time [now + 300], and is gone once
    the time is past [now + 300]; a second enrollment of the same user
    replaces the staged secret and restarts the 300 seconds. *)
Theorem totp_setup_expires mgr now random_base32 codes user_id st :
  let key := "mfa_setup:" +:+ user_id in
  let st1 := snd (_setup_totp_mfa mgr now random_base32 codes user_id st) in
  (∀ t, t <= now + 300 →
        redis_get t key st1 = Some (RBytes (fernet_encrypt mgr random_base32)))
  ∧ (∀ t, now + 300 < t → redis_get t key st1 = None)
  ∧ ∀ now2 random2 codes2 t,
      let st2 := snd (_setup_totp_mfa mgr now2 random2 codes2 user_id st1) in
      redis_get t key st2
      = if t <=? now2 + 300 then Some (RBytes (fernet_encrypt mgr random2)) else None.
Proof.
  cbn zeta. unfold _setup_totp_mfa, bind, modify, ret, redis_setex, redis_get, set_kv.
  cbn [snd kv]. split; [| split].
  - intros t Ht. rewrite lookup_insert_eq. cbn. by leb_true.
  - intros t Ht. rewrite lookup_insert_eq. cbn. by leb_false.
  - intros now2 random2 codes2 t. by rewrite lookup_insert_eq.
Qed.

(** ** MFA validation *)

(** X8: a validation attempt with a method other than TOTP can never
    succeed, and while the user is under the quota it still uses up one
    of the ten attempts, which are shared with TOTP. *)
Theorem mfa_other_methods_use_attempts mgr now token_hex user_id token method st :
  let key := "mfa_attempts:" +:+ user_id in
  method ≠ TOTP →
  is_counter (redis_get now key st) →
  count_of now key st < 10 →
  validate_mfa_token mgr now token_hex user_id token method st
  = (Ok false,
     set_kv (λ m, <[key := mkEntry (RInt (count_of now key st + 1)) (Some (now + 300))]> m)
            st).
Proof.
  intros key Hm Hc Hlt. unfold validate_mfa_token, bind. fold key.
  rewrite check_rate_limit_spec, mfa_limit by done. cbn [requests]. ltb_true.
  rewrite increment_spec, mfa_limit by (done || (unfold int64_max; lia)). cbn [window].
  by destruct method.
Qed.

Lemma mfa_other_methods_use_attempts_witness :
  validate_mfa_token sample_manager 0 "e" "alice" "123456" SMS enrolled_store
  = (Ok false,
     set_kv (λ m, <["mfa_attempts:alice" := mkEntry (RInt 1) (Some 300)]> m) enrolled_store).
Proof.
  apply (mfa_other_methods_use_attempts sample_manager 0 "e" "alice" "123456" SMS
           enrolled_store).
  - discriminate.
  - exact I.
  - vm_compute. reflexivity.
Defined.

(** X9: under the quota, a TOTP attempt of a user with an active secret
    returns the verdict of the verifier on the decrypted secret, the
    code and the current time (false when the stored value does not
    decrypt or the verifier raises), and it counts against the quota
    whether the verdict is true or false. *)
Theorem mfa_totp_verdict mgr now token_hex user_id token st stored :
  let key := "mfa_attempts:" +:+ user_id in
  is_counter (redis_get now key st) →
  count_of now key st < 10 →
  redis_get now ("mfa_secret:" +:+ user_id) st = Some stored →
  truthy (rvalue_bytes stored) = true →
  validate_mfa_token mgr now token_hex user_id token TOTP st
  = (Ok (match fernet_decrypt mgr (rvalue_bytes stored) with
         | Some secret => default false (totp_verify mgr secret token now)
         | None => false
         end),
     set_kv (λ m, <[key := mkEntry (RInt (count_of now key st + 1)) (Some (now + 300))]> m)
            st).
Proof.
  intros key Hc Hlt Hs Ht. rewrite mfa_admitted by done. fold key. f_equal.
  unfold _validate_totp_token. rewrite Hs, Ht.
  by destruct (fernet_decrypt _ _).
Qed.

Lemma mfa_totp_verdict_witness :
  validate_mfa_token sample_manager 0 "e" "alice" "123456" TOTP enrolled_store
  = (Ok true,
     set_kv (λ m, <["mfa_attempts:alice" := mkEntry (RInt 1) (Some 300)]> m) enrolled_store).
Proof.
  apply (mfa_totp_verdict sample_manager 0 "e" "alice" "123456" enrolled_store
           (RBytes "JBSWY3DPEHPK3PXP")).
  - exact I.
  - vm_compute. reflexivity.
  - reflexivity.
  - reflexivity.
Defined.

(** ** Tokens *)

(** X10: validation only reads the store; a payload it returns is the
    payload the decoder produced for the token, unchanged.  The one
    failure reported as HTTP 401 is the expired signature; every other
    failure, an invalid token or a ledger without a live entry, leaves the
    call as [AttributeError], because the handler names [jwt.JWTError],
    which the module does not have. *)
Theorem validate_reads_only mgr now token st :
  snd (validate_jwt_token mgr now token st) = st
  ∧ match fst (validate_jwt_token mgr now token st) with
    | Ok payload =>
        jwt_decode now (secret_key mgr) [jwt_algorithm] true token = Decoded payload
    | Raise e =>
        match jwt_decode now (secret_key mgr) [jwt_algorithm] true token with
        | ExpiredSignatureError => e = expired
        | Decoded payload =>
            e = no_JWTError
            ∧ py_truthy (payload !! "jti") = true
            ∧ match redis_get now ("jwt:" +:+ py_str (payload !! "jti")) st with
              | Some v => truthy (rvalue_bytes v) = false
              | None => True
              end
        | InvalidTokenError => e = no_JWTError
        end
    end.
Proof.
  unfold validate_jwt_token.
  destruct (jwt_decode _ _ _ _ token) as [payload | |]; cbn; [| done | done].
  destruct (py_truthy _); cbn; [| done].
  unfold bind, ret, raise.
  destruct (redis_get _ _ st) as [v |]; cbn; [| done].
  destruct (truthy _); cbn; done.
Qed.

Lemma decode_later mgr t1 t2 token payload :
  t1 <= t2 →
  jwt_decode t1 (secret_key mgr) [jwt_algorithm] false token = Decoded payload →
  jwt_decode t2 (secret_key mgr) [jwt_algorithm] false token = Decoded payload.
Proof.
  intros Ht. unfold jwt_decode. destruct token as [k alg claims | text]; [| done].
  destruct (_ && _); [| done].
  unfold check_claim.
  destruct (claims !! "iat") as [[| b | iat | s] |]; try done;
    destruct (claims !! "nbf") as [[| b' | nbf | s'] |]; try done;
    repeat match goal with
           | |- context [?t <? ?x] => destruct (Z.ltb_spec t x)
           end; try done; lia.
Qed.

(** X11: revocation never raises. When it returns false the store is
    as it was; when it returns true the one change is that the ledger
    entry of the token's [jti] is deleted, and revoking the same token
    again at any later time returns true again and changes nothing. *)
Theorem revoke_is_idempotent mgr t1 token st :
  ∃ b st1,
    revoke_jwt_token mgr t1 token st = (Ok b, st1)
    ∧ (b = false → st1 = st)
    ∧ (b = true →
       (∃ payload,
          jwt_decode t1 (secret_key mgr) [jwt_algorithm] false token = Decoded payload
          ∧ st1 = redis_delete ("jwt:" +:+ py_str (payload !! "jti")) st)
       ∧ ∀ t2, t1 <= t2 → revoke_jwt_token mgr t2 token st1 = (Ok true, st1)).
Proof.
  unfold revoke_jwt_token.
  destruct (jwt_decode t1 _ _ _ token) as [payload | |] eqn:Hdec;
    try (eexists false, st; repeat split; [done | done]).
  destruct (py_truthy (payload !! "jti")) eqn:Hjti;
    [| eexists false, st; repeat split; [done | done]].
  eexists true, _. split; [reflexivity |]. split; [done |]. intros _. split.
  - eauto.
  - intros t2 Ht2. rewrite (decode_later mgr t1 t2 token payload Ht2 Hdec), Hjti.
    unfold bind, modify, ret, redis_delete, set_kv. cbn.
    by rewrite delete_delete_eq.
Qed.

(** The lifetime of the ledger record of a token type: one hour for an
    access token, seven days for every other type, the last second
    included. *)
Lemma ledger_of_issued mgr now token_hex subject token_type st t :
  redis_get t ("jwt:" +:+ token_hex)
    (snd (create_secure_jwt_token mgr now token_hex {["sub" := subject]} token_type st))
  = if t <=? now + (if String.eqb token_type "access"
                    then access_token_expire else refresh_token_expire)
    then Some (RJson subject token_type) else None.
Proof.
  rewrite create_token_spec. unfold redis_get, redis_setex, set_kv. cbn [snd kv].
  by rewrite lookup_insert_eq.
Qed.

(** X12: a token issued for a string subject and not revoked validates
    from its issue time on: an access token at every time before
    [now + 3600], a refresh token at every time before [now + 604800],
    and a token of any other type, which carries no expiry claim, as long
    as its ledger record is served, up to and including [now + 604800].
    After that an access or refresh token fails as expired, and a token of
    another type fails with [AttributeError]: the refusal raised for the
    missing ledger record has no handler that exists. *)
Theorem token_lifetime mgr st now token_hex (subject : string) token_type :
  String.length token_hex = 32%nat →
  let claims := issued_claims now token_hex (JStr subject) token_type in
  ∃ st1,
    create_secure_jwt_token mgr now token_hex {["sub" := JStr subject]} token_type st
    = (Ok (Jwt (secret_key mgr) jwt_algorithm claims), st1)
    ∧ ∀ t, now <= t →
        validate_jwt_token mgr t (Jwt (secret_key mgr) jwt_algorithm claims) st1
        = (if String.eqb token_type "access" then
             if t <? now + access_token_expire then Ok claims else Raise expired
           else if String.eqb token_type "refresh" then
             if t <? now + refresh_token_expire then Ok claims else Raise expired
           else
             if t <=? now + refresh_token_expire then Ok claims else Raise no_JWTError,
           st1).
Proof.
  intros Hhex%token_hex_truthy claims. subst claims.
  eexists. split; [apply create_token_spec |].
  intros t Ht. rewrite validate_issued by done.
  pose proof (ledger_of_issued mgr now token_hex (JStr subject) token_type st t) as Hl.
  rewrite create_token_spec in Hl. cbn [snd] in Hl. rewrite Hl. clear Hl.
  unfold expires_at.
  destruct (String.eqb token_type "access").
  - destruct (Z.leb_spec (now + access_token_expire) t),
      (Z.ltb_spec t (now + access_token_expire)); try lia; [done |].
    by leb_true.
  - destruct (String.eqb token_type "refresh").
    + destruct (Z.leb_spec (now + refresh_token_expire) t),
        (Z.ltb_spec t (now + refresh_token_expire)); try lia; [done |].
      by leb_true.
    + by destruct (t <=? now + refresh_token_expire).
Qed.

(** A session token issued at 0: served at 604800, refused with
    [AttributeError] one second later. *)
Lemma token_lifetime_witness :
  let token := Jwt (secret_key sample_manager) jwt_algorithm
                   (issued_claims 0 sample_jti (JStr "alice") "session") in
  let st1 := snd (create_secure_jwt_token sample_manager 0 sample_jti
                    {["sub" := JStr "alice"]} "session" empty_redis) in
  fst (validate_jwt_token sample_manager 604800 token st1)
  = Ok (issued_claims 0 sample_jti (JStr "alice") "session")
  ∧ fst (validate_jwt_token sample_manager 604801 token st1) = Raise no_JWTError.
Proof.
  cbn zeta.
  destruct (token_lifetime sample_manager empty_redis 0 sample_jti "alice"
              "session" eq_refl) as (st1 & Hc & Hv).
  rewrite Hc. cbn [snd]. rewrite !Hv by (vm_compute; congruence).
  split; reflexivity.
Defined.


Lemma jti_keys_differ (a b : string) : a ≠ b → "jwt:" +:+ a ≠ "jwt:" +:+ b.
Proof. intros Hne H. by apply append_inj_l in H. Qed.

(** X14: revoking one token does not touch another: after two access
    tokens with different [jti] have been issued for string subjects and
    the first is revoked, the second still validates during its lifetime. *)
Theorem revoke_leaves_other_tokens mgr st now_a now_b hex_a hex_b
    (sub_a sub_b : string) t1 t :
  String.length hex_a = 32%nat → String.length hex_b = 32%nat → hex_a ≠ hex_b →
  now_a <= t1 → now_b <= t < now_b + access_token_expire →
  let token_a := Jwt (secret_key mgr) jwt_algorithm
                     (issued_claims now_a hex_a (JStr sub_a) "access") in
  let token_b := Jwt (secret_key mgr) jwt_algorithm
                     (issued_claims now_b hex_b (JStr sub_b) "access") in
  let st1 := snd (create_secure_jwt_token mgr now_a hex_a {["sub" := JStr sub_a]}
                    "access" st) in
  let st2 := snd (create_secure_jwt_token mgr now_b hex_b {["sub" := JStr sub_b]}
                    "access" st1) in
  let st3 := snd (revoke_jwt_token mgr t1 token_a st2) in
  fst (revoke_jwt_token mgr t1 token_a st2) = Ok true
  ∧ validate_jwt_token mgr t token_b st3
    = (Ok (issued_claims now_b hex_b (JStr sub_b) "access"), st3).
Proof.
  intros Ha%token_hex_truthy Hb%token_hex_truthy Hne Ht1 Ht.
  cbn zeta. rewrite !create_token_spec. cbn [snd].
  rewrite revoke_issued by done. cbn [fst snd]. split; [done |].
  assert (Hkeys := jti_keys_differ hex_a hex_b Hne).
  rewrite validate_issued by (done || lia).
  cbn [expires_at String.eqb Ascii.eqb Bool.eqb]. leb_false.
  unfold redis_get, redis_delete, redis_setex, set_kv. cbn [kv].
  rewrite lookup_delete_ne, lookup_insert_eq by done.
  cbn [live e_deadline e_val]. leb_true. reflexivity.
Qed.

(** Two tokens issued at 0 and 5; the first is revoked at 10 and the
    second validated at 20. *)
Lemma revoke_leaves_other_tokens_witness :
  let token_a := Jwt (secret_key sample_manager) jwt_algorithm
                     (issued_claims 0 sample_jti (JStr "alice") "access") in
  let token_b := Jwt (secret_key sample_manager) jwt_algorithm
                     (issued_claims 5 other_jti (JStr "bob") "access") in
  let st1 := snd (create_secure_jwt_token sample_manager 0 sample_jti
                    {["sub" := JStr "alice"]} "access" empty_redis) in
  let st2 := snd (create_secure_jwt_token sample_manager 5 other_jti
                    {["sub" := JStr "bob"]} "access" st1) in
  let st3 := snd (revoke_jwt_token sample_manager 10 token_a st2) in
  fst (validate_jwt_token sample_manager 20 token_b st3)
  = Ok (issued_claims 5 other_jti (JStr "bob") "access").
Proof.
  cbn zeta.
  destruct (revoke_leaves_other_tokens sample_manager empty_redis 0 5 sample_jti other_jti
              "alice" "bob" 10 20) as [_ ->].
  - reflexivity.
  - reflexivity.
  - discriminate.
  - vm_compute. congruence.
  - vm_compute. split; congruence.
  - reflexivity.
Defined.

(** ** Password validation *)

(** The fields of a validation result, as the function computes them. *)
Lemma validation_result password user_context result :
  advanced_password_validation password user_context = Ok result →
  issues result = password_issues password user_context
  ∧ is_valid result = (match issues result with [] => true | _ => false end)
  ∧ strength_score result = Z.max 0 (Z.min 100 (raw_score password user_context))
  ∧ suggestions result
    = if strength_score result <? 80
      then [ "Use a passphrase with multiple words";
             "Include numbers and special characters";
             "Make it at least 16 characters long";
             "Avoid predictable patterns" ]
      else [].
Proof.
  unfold advanced_password_validation.
  destruct (_estimate_crack_time _ _) as [estimate | e]; [| done].
  intros [= <-]. done.
Qed.

Lemma issue_here (b : bool) issue rest :
  b = true → issue ∈ issue_if b issue ++ rest.
Proof. intros ->. apply list_elem_of_here. Qed.

Lemma issue_later (issue : string) skipped rest :
  issue ∈ rest → issue ∈ skipped ++ rest.
Proof. intros H. apply elem_of_app. by right. Qed.

Ltac find_issue := repeat first [ by apply issue_here | apply issue_later ].

Lemma invalid_of_issue result issue :
  is_valid result = (match issues result with [] => true | _ => false end) →
  issue ∈ issues result → is_valid result = false.
Proof. intros -> H. destruct (issues result); [by apply elem_of_nil in H | done]. Qed.

(** X15: whenever the validation returns a result, a password that lacks
    an uppercase letter, a lowercase letter, a digit or a special
    character, or that is shorter than 12 or longer than 128 characters,
    has the matching issue in the result and is not valid. *)
Theorem password_issue_reported password user_context result :
  advanced_password_validation password user_context = Ok result →
  let reported (condition : bool) (issue : string) :=
    condition = true → issue ∈ issues result ∧ is_valid result = false in
  reported (negb (any isupper password)) "Add uppercase letters"
  ∧ reported (negb (any islower password)) "Add lowercase letters"
  ∧ reported (negb (any isdigit password)) "Add numbers"
  ∧ reported (negb (any is_special password)) "Add special characters"
  ∧ reported (Z.of_nat (String.length password) <? 12)
             "Password must be at least 12 characters long"
  ∧ reported (128 <? Z.of_nat (String.length password))
             "Password is too long (max 128 characters)".
Proof.
  intros (Hi & Hv & _)%validation_result. cbn zeta.
  assert (Hrep : ∀ issue, issue ∈ password_issues password user_context →
            issue ∈ issues result ∧ is_valid result = false).
  { rewrite <- Hi. intros issue H.
    split; [done | by apply (invalid_of_issue result issue)]. }
  split_and!; intros Hc; apply Hrep; unfold password_issues; find_issue.
Qed.

(** A password without an uppercase letter. *)
Lemma password_issue_reported_witness :
  ∃ result,
    advanced_password_validation "password123" (mkContext None None) = Ok result
    ∧ "Add uppercase letters" ∈ issues result ∧ is_valid result = false.
Proof.
  destruct (password_validation_defined "password123" (mkContext None None))
    as [result Hr]; [simpl; lia |].
  exists result. split; [done |].
  by apply (password_issue_reported _ _ _ Hr).
Defined.

Lemma is_special_lower_char c : is_special (lower_char c) = is_special c.
Proof. by destruct c as [[] [] [] [] [] [] [] []]. Qed.

Lemma any_special_lower password :
  any is_special (lower password) = any is_special password.
Proof.
  unfold any, lower. rewrite list_ascii_of_string_of_list_ascii.
  induction (list_ascii_of_string password) as [| c l IH]; [done |].
  cbn [List.map existsb]. by rewrite is_special_lower_char, IH.
Qed.

(** None of the common passwords has a special character, in any casing. *)
Lemma common_password_not_special password :
  lower password ∈ common_passwords → any is_special password = false.
Proof.
  intros H. rewrite <- any_special_lower.
  unfold common_passwords in H.
  rewrite !elem_of_cons in H.
  destruct H as [-> | [-> | [-> | H]]]; [done | done | done |].
  by apply elem_of_nil in H.
Qed.

Lemma log2_94_ge_6 : (6 <= log2 94)%R.
Proof.
  replace 6%R with (log2 (2 ^ 6)) by (rewrite log2_pow2; simpl; lra).
  apply log2_le; simpl; lra.
Qed.

(** With all four classes the charset has 94 characters, and twelve
    characters already give 72 bits. *)
Lemma entropy_of_four_classes password :
  any isupper password = true → any islower password = true →
  any isdigit password = true → any is_special password = true →
  (6 * IZR (Z.of_nat (String.length password)) <= _calculate_password_entropy password)%R.
Proof.
  intros Hu Hl Hd Hs. unfold _calculate_password_entropy, charset_size.
  rewrite Hu, Hl, Hd, Hs. change (26 + 26 + 10 + 32) with 94.
  change (0 <? 94) with true. cbv iota.
  pose proof log2_94_ge_6.
  assert (0 <= IZR (Z.of_nat (String.length password)))%R by (apply IZR_le; lia).
  nra.
Qed.

Lemma issue_if_nil b issue : issue_if b issue = [] ↔ b = false.
Proof. destruct b; cbn; split; done. Qed.

(** [str.lower] identifies exactly the characters that [same_letter]
    matches. *)
Lemma lower_char_same_letter c d :
  Ascii.eqb (lower_char c) (lower_char d) = same_letter c d.
Proof.
  revert c d.
  assert (H : forallb (λ c, forallb (λ d,
                Bool.eqb (Ascii.eqb (lower_char c) (lower_char d)) (same_letter c d))
                (List.map Ascii.ascii_of_nat (seq 0 256)))
              (List.map Ascii.ascii_of_nat (seq 0 256)) = true)
    by (vm_compute; reflexivity).
  rewrite forallb_forall in H.
  intros c d.
  assert (Hin : ∀ a, In a (List.map Ascii.ascii_of_nat (seq 0 256))).
  { intros a. rewrite <- (Ascii.ascii_nat_embedding a).
    apply List.in_map, List.in_seq.
    pose proof (Ascii.nat_ascii_bounded a). lia. }
  specialize (H c (Hin c)). rewrite forallb_forall in H.
  specialize (H d (Hin d)). by apply Bool.eqb_prop in H.
Qed.

Lemma lower_cons c s : lower (String c s) = String (lower_char c) (lower s).
Proof. reflexivity. Qed.

Lemma prefix_lower needle : ∀ hay,
  String.prefix (lower needle) (lower hay) = prefix_nocase needle hay.
Proof.
  induction needle as [| c needle IH]; intros hay.
  - by destruct hay.
  - destruct hay as [| d hay]; [done |].
    rewrite !lower_cons. cbn [String.prefix prefix_nocase].
    rewrite <- lower_char_same_letter, <- IH.
    destruct (ascii_dec (lower_char c) (lower_char d)) as [-> | Hne].
    + by rewrite Ascii.eqb_refl.
    + apply Ascii.eqb_neq in Hne. by rewrite Hne.
Qed.

Lemma contains_lower needle hay :
  contains (lower needle) (lower hay) = contains_nocase needle hay.
Proof.
  induction hay as [| d hay IH].
  - cbn [contains contains_nocase]. by rewrite <- prefix_lower.
  - rewrite lower_cons. cbn [contains contains_nocase].
    by rewrite <- lower_cons, prefix_lower, IH.
Qed.

Lemma truthy_lower s : truthy (lower s) = truthy s.
Proof. by destruct s. Qed.

Lemma lower_char_at c : Ascii.eqb (lower_char c) "@" = Ascii.eqb c "@".
Proof. by destruct c as [[] [] [] [] [] [] [] []]. Qed.

Lemma split_head_lower s : split_head "@" (lower s) = lower (split_head "@" s).
Proof.
  induction s as [| c s IH]; [done |].
  rewrite lower_cons. cbn [split_head]. rewrite lower_char_at, IH.
  by destruct (Ascii.eqb c "@").
Qed.

(** The two personal-information tests of the validation, without
    [str.lower]. *)
Lemma name_in_password_nocase password user_context :
  name_in_password password user_context
  = occurs_nocase (default "" (ctx_name user_context)) password.
Proof.
  unfold name_in_password, occurs_nocase. by rewrite truthy_lower, contains_lower.
Qed.

Lemma email_in_password_nocase password user_context :
  email_in_password password user_context
  = occurs_nocase (split_head "@" (default "" (ctx_email user_context))) password.
Proof.
  unfold email_in_password, occurs_nocase.
  by rewrite split_head_lower, truthy_lower, contains_lower.
Qed.

(** X16: a password is reported valid exactly when it has 12 to 128
    characters, an uppercase letter, a lowercase letter, a digit and a
    listed special character, and contains neither the user's name nor the
    local part of the user's e-mail address, whatever the case of their
    letters; the rules on common passwords and on low entropy never
    decide.  A valid password always has the score 100 and no
    suggestions. *)
Theorem password_valid_iff password user_context :
  ((∃ result, advanced_password_validation password user_context = Ok result
              ∧ is_valid result = true)
   ↔ 12 <= Z.of_nat (String.length password) <= 128
     ∧ any isupper password = true ∧ any islower password = true
     ∧ any isdigit password = true ∧ any is_special password = true
     ∧ occurs_nocase (default "" (ctx_name user_context)) password = false
     ∧ occurs_nocase (split_head "@" (default "" (ctx_email user_context))) password
       = false)
  ∧ (∀ result, advanced_password_validation password user_context = Ok result →
       is_valid result = true →
       strength_score result = 100 ∧ issues result = [] ∧ suggestions result = []).
Proof.
  rewrite <- name_in_password_nocase, <- email_in_password_nocase.
  assert (Hnil : password_issues password user_context = [] →
     12 <= Z.of_nat (String.length password) <= 128
     ∧ any isupper password = true ∧ any islower password = true
     ∧ any isdigit password = true ∧ any is_special password = true
     ∧ name_in_password password user_context = false
     ∧ email_in_password password user_context = false
     ∧ bool_decide (lower password ∈ common_passwords) = false).
  { unfold password_issues. rewrite !app_nil, !issue_if_nil, !negb_false_iff.
    intros (H12 & H128 & Hu & Hl & Hd & Hs & Hc & Hn & He & _).
    apply Z.ltb_ge in H12, H128. done. }
  split; [split |].
  - intros (result & Hr & Hv).
    apply validation_result in Hr as (Hi & Hv' & _).
    rewrite Hv in Hv'. destruct (issues result) eqn:E; [| done].
    symmetry in Hi. apply Hnil in Hi. tauto.
  - intros ([H12 H128] & Hu & Hl & Hd & Hs & Hn & He).
    destruct (password_validation_defined password user_context)
      as [result Hr]; [lia |].
    exists result. split; [done |].
    apply validation_result in Hr as (Hi & -> & _). rewrite Hi.
    unfold password_issues.
    rewrite Hu, Hl, Hd, Hn, He, Hs.
    replace (Z.of_nat (String.length password) <? 12) with false by (symmetry; lia).
    replace (128 <? Z.of_nat (String.length password)) with false by (symmetry; lia).
    rewrite bool_decide_eq_false_2; last first.
    { intros Hc%common_password_not_special. congruence. }
    pose proof (entropy_of_four_classes password Hu Hl Hd Hs) as Hent.
    destruct (Rlt_dec _ _) as [Hlow | _]; [| done].
    apply IZR_le in H12. lra.
  - intros result (Hi & Hv & Hscore & Hsug)%validation_result Hvalid.
    rewrite Hvalid in Hv. destruct (issues result) eqn:E; [| done].
    symmetry in Hi. apply Hnil in Hi as (_ & Hu & Hl & Hd & Hs & Hn & He & Hc).
    assert (Hs100 : strength_score result = 100).
    { rewrite Hscore. unfold raw_score. rewrite Hu, Hl, Hd, Hs, Hn, He, Hc. done. }
    rewrite Hsug, Hs100. done.
Qed.

(** A sixteen-character password with all four classes is valid for the
    user Ada, and is not valid for the user Horse, whose name it holds in
    other letters' case. *)
Lemma password_valid_iff_witness :
  (∃ result,
     advanced_password_validation "Correct-HORSE-42" (mkContext (Some "Ada") None)
       = Ok result
     ∧ is_valid result = true ∧ strength_score result = 100)
  ∧ ¬ (∃ result,
         advanced_password_validation "Correct-HORSE-42"
           (mkContext (Some "Horse") None) = Ok result
         ∧ is_valid result = true).
Proof.
  split.
  - destruct (password_valid_iff "Correct-HORSE-42" (mkContext (Some "Ada") None))
      as [[_ Hexists] Hscore].
    destruct Hexists as (result & Hr & Hv); [by vm_compute |].
    exists result. split_and!; [done | done |].
    by destruct (Hscore result Hr Hv).
  - destruct (password_valid_iff "Correct-HORSE-42" (mkContext (Some "Horse") None))
      as [[Hvalid _] _].
    intros H. apply Hvalid in H as (_ & _ & _ & _ & _ & Hname & _).
    vm_compute in Hname. discriminate.
Defined.

(** ** Entropy *)

Lemma log2_8 : log2 8 = 3%R.
Proof. replace 8%R with (2 ^ 3)%R by (simpl; lra). rewrite log2_pow2. simpl. lra. Qed.

Lemma log2_128 : log2 128 = 7%R.
Proof. replace 128%R with (2 ^ 7)%R by (simpl; lra). rewrite log2_pow2. simpl. lra. Qed.

(** A password with a character of one of the classes is not empty. *)
Lemma any_length p password :
  any p password = true → (1 <= String.length password)%nat.
Proof. destruct password; [done | cbn; lia]. Qed.

Lemma charset_size_length password :
  0 < charset_size password → (1 <= String.length password)%nat.
Proof.
  unfold charset_size. intros H.
  destruct (any islower password) eqn:E1; [by apply any_length in E1 |].
  destruct (any isupper password) eqn:E2; [by apply any_length in E2 |].
  destruct (any isdigit password) eqn:E3; [by apply any_length in E3 |].
  destruct (any is_special password) eqn:E4; [by apply any_length in E4 |].
  lia.
Qed.

(** X17: the entropy is 0 for a password in which no class of characters
    occurs, neither a lowercase nor an uppercase letter, a digit or a
    listed special character (the empty password among them), and lies
    between 3 and 7 bits per character otherwise, so it is at least 3
    bits for every other password. *)
Theorem entropy_bounds password :
  let n := IZR (Z.of_nat (String.length password)) in
  let entropy := _calculate_password_entropy password in
  (charset_size password = 0
   ↔ any islower password = false ∧ any isupper password = false
     ∧ any isdigit password = false ∧ any is_special password = false)
  ∧ (charset_size password = 0 → entropy = 0%R)
  ∧ (charset_size password ≠ 0 →
       (3 * n <= entropy <= 7 * n)%R ∧ (3 <= entropy)%R).
Proof.
  cbn zeta. unfold _calculate_password_entropy. split; [| split].
  - unfold charset_size.
    destruct (any islower password), (any isupper password),
      (any isdigit password), (any is_special password);
      split; (done || lia || (intros (? & ? & ? & ?); done)).
  - intros ->. done.
  - intros Hne. destruct (charset_size_range password) as [H0 | [Hlo Hhi]]; [done |].
    replace (0 <? charset_size password) with true by (symmetry; lia).
    assert (Hlen : (1 <= IZR (Z.of_nat (String.length password)))%R).
    { apply IZR_le. pose proof (charset_size_length password). lia. }
    assert (H3 : (3 <= log2 (IZR (charset_size password)))%R).
    { rewrite <- log2_8. apply log2_le; [lra |].
      apply IZR_le in Hlo. lra. }
    assert (H7 : (log2 (IZR (charset_size password)) <= 7)%R).
    { rewrite <- log2_128. apply IZR_le in Hlo, Hhi. apply log2_le; lra. }
    nra.
Qed.

(** X18: of two passwords, the one that is at least as long and draws
    on at least as large a charset has at least as many bits of entropy. *)
Theorem entropy_orders_passwords password1 password2 :
  (String.length password2 <= String.length password1)%nat →
  charset_size password2 <= charset_size password1 →
  (_calculate_password_entropy password2 <= _calculate_password_entropy password1)%R.
Proof.
  intros Hlen Hcs.
  destruct (charset_size_range password2) as [H0 | [Hlo Hhi]].
  - unfold _calculate_password_entropy at 1. rewrite H0. cbn.
    apply entropy_nonneg.
  - unfold _calculate_password_entropy.
    replace (0 <? charset_size password2) with true by (symmetry; lia).
    replace (0 <? charset_size password1) with true by (symmetry; lia).
    assert (0 <= log2 (IZR (charset_size password2)))%R.
    { apply log2_range. destruct (charset_size_range password1); lia. }
    apply Rmult_le_compat.
    + apply IZR_le. lia.
    + done.
    + apply IZR_le. lia.
    + apply IZR_le in Hlo, Hcs. apply log2_le; lra.
Qed.

(** A mixed password against a short lowercase one. *)
Lemma entropy_orders_passwords_witness :
  (_calculate_password_entropy "horse"
   <= _calculate_password_entropy "Correct-Horse-42")%R.
Proof.
  apply (entropy_orders_passwords "Correct-Horse-42" "horse").
  - simpl. lia.
  - vm_compute. discriminate.
Defined.

(** ** Risk score and detection *)

Lemma float_ltb_leb x y : PrimFloat.ltb x y = true → PrimFloat.leb x y = true.
Proof.
  rewrite FloatAxioms.ltb_spec, FloatAxioms.leb_spec. unfold SFltb, SFleb.
  by destruct (SFcompare _ _) as [[] |].
Qed.

(** [min(1.0, max(0.0, s))] lies in the unit interval for every float. *)
Lemma clamp_range s :
  let r := py_min 1.0 (py_max 0.0 s) in
  PrimFloat.leb 0 r = true ∧ PrimFloat.leb r 1 = true.
Proof.
  cbn zeta. unfold py_max.
  destruct (PrimFloat.ltb 0.0 s) eqn:E0.
  - unfold py_min. destruct (PrimFloat.ltb s 1.0) eqn:E1.
    + split; by apply float_ltb_leb.
    + split; vm_compute; reflexivity.
  - split; vm_compute; reflexivity.
Qed.

(** X19: the composite risk score lies between 0.0 and 1.0 for every
    feature dictionary, whatever the floats in it: a sum that is
    negative, infinite or not a number is clamped as well. *)
Theorem risk_score_range features :
  PrimFloat.leb 0 (_calculate_risk_score features) = true
  ∧ PrimFloat.leb (_calculate_risk_score features) 1 = true.
Proof. unfold _calculate_risk_score. apply clamp_range. Qed.

(** X20: a threat detection never raises and never touches the keys or
    the sets of the store; its score lies in the unit interval and its
    level is the one of the score; it requires blocking exactly at the
    critical level; at the high and critical levels it logs one
    unusual-activity event with that score and raises one alert, and at
    the lower levels it leaves the store as it is and recommends nothing. *)
Theorem threat_detection_effects now current_hour token_hex user_id request activity_data st :
  ∃ response st',
    ai_powered_threat_detection now current_hour token_hex user_id request activity_data st
    = (Ok response, st')
    ∧ PrimFloat.leb 0 (r_risk_score response) = true
    ∧ PrimFloat.leb (r_risk_score response) 1 = true
    ∧ r_threat_level response
      = SecurityLevel_value (_determine_threat_level (r_risk_score response))
    ∧ (blocking_required response = true
       ↔ _determine_threat_level (r_risk_score response) = CRITICAL)
    ∧ kv st' = kv st ∧ sets st' = sets st
    ∧ match _determine_threat_level (r_risk_score response) with
      | HIGH | CRITICAL =>
          let event :=
            detection_event now current_hour token_hex user_id request activity_data st in
          risk_score event = r_risk_score response
          ∧ security_events st' = take (Z.to_nat 10001) (event :: security_events st)
          ∧ length (security_alerts st') = S (length (security_alerts st))
          ∧ recommended_actions response ≠ []
      | _ => st' = st ∧ recommended_actions response = []
      end.
Proof.
  unfold ai_powered_threat_detection, detection_event.
  set (features := _extract_behavioral_features _ _ _ _ _ _).
  assert (PrimFloat.leb 0 (_calculate_risk_score features) = true
          ∧ PrimFloat.leb (_calculate_risk_score features) 1 = true) as [H0 H1]
    by (unfold _calculate_risk_score; apply clamp_range).
  destruct (_determine_threat_level (_calculate_risk_score features)) eqn:E;
    unfold bind, ret, _log_security_event, _trigger_security_alert, modify;
    cbn -[Z.to_nat redis_ltrim _calculate_risk_score _determine_threat_level take];
    rewrite ?E; cbn -[Z.to_nat redis_ltrim _calculate_risk_score _determine_threat_level take];
    eexists _, _; (split; [reflexivity |]);
    cbn -[Z.to_nat redis_ltrim _calculate_risk_score _determine_threat_level take];
    rewrite ?E, ?redis_ltrim_cap; destruct st; split_and!; done.
Qed.

(** ** Dashboard *)

Lemma redis_lrange_head {A} (n : Z) (l : list A) :
  0 <= n → redis_lrange 0 n l = take (Z.to_nat (n + 1)) l.
Proof.
  intros Hn. unfold redis_lrange, redis_ltrim.
  change (0 <? 0) with false. cbv iota.
  replace (n <? 0) with false by (symmetry; lia).
  set (len := Z.of_nat (length l)).
  assert (Hlen : len = Z.of_nat (length l)) by reflexivity.
  destruct (Z.leb_spec len n) as [Hle | Hgt].
  - destruct (Z.ltb_spec (len - 1) 0) as [H0 | H1].
    + destruct l; [by rewrite take_nil | simpl in Hlen; lia].
    + destruct (Z.leb_spec len 0) as [H2 | H2]; [lia |].
      cbn [orb]. rewrite drop_0, !take_ge by lia. reflexivity.
  - replace (n <? 0) with false by (symmetry; lia).
    destruct (Z.leb_spec len 0) as [H2 | H2]; [lia |].
    cbn [orb]. rewrite drop_0. do 2 f_equal. lia.
Qed.

Lemma length_filter_le {A} (p : A → bool) (l : list A) :
  (length (List.filter p l) <= length l)%nat.
Proof. induction l as [| a l IH]; cbn; [lia |]. destruct (p a); cbn; lia. Qed.

(** X21: the dashboard never raises and leaves the store as it is; it
    reads the 101 newest events and the 51 newest alerts, since LRANGE
    includes its stop index, and shows the 20 newest events and the 10
    newest alerts; the total is the number of events read, at most 101,
    and the high-risk count never exceeds it. *)
Theorem dashboard_summary st :
  ∃ dashboard,
    get_security_dashboard_data st = (Ok dashboard, st)
    ∧ recent_events dashboard = take 20 (security_events st)
    ∧ active_alerts dashboard = take 10 (security_alerts st)
    ∧ total_events dashboard = Z.min (Z.of_nat (length (security_events st))) 101
    ∧ 0 <= high_risk_events dashboard <= total_events dashboard
    ∧ high_risk_events dashboard
      = Z.of_nat (length (List.filter (λ e, PrimFloat.ltb 0.7 (risk_score e))
                                      (take 101 (security_events st)))).
Proof.
  unfold get_security_dashboard_data. eexists. split; [reflexivity |].
  cbn [recent_events active_alerts total_events high_risk_events].
  rewrite !redis_lrange_head by lia.
  change (Z.to_nat (100 + 1)) with 101%nat. change (Z.to_nat (50 + 1)) with 51%nat.
  rewrite !take_take. split_and!; try done.
  - rewrite length_take. lia.
  - lia.
  - apply inj_le, length_filter_le.
Qed.

Lemma count_threats_lookup events (threat_stats : gmap string Z) key :
  (∀ k v, threat_stats !! k = Some v → 0 < v) →
  fold_left (λ threat_stats event,
               let threat_type := ThreatType_str (event_type event) in
               <[threat_type := default 0 (threat_stats !! threat_type) + 1]> threat_stats)
            events threat_stats !! key
  = (let n := default 0 (threat_stats !! key) + count_key key events in
     if n =? 0 then None else Some n).
Proof.
  revert threat_stats.
  induction events as [| e events IH]; intros threat_stats Hpos; cbn zeta.
  - unfold count_key. cbn. rewrite Z.add_0_r.
    destruct (threat_stats !! key) as [v |] eqn:E; cbn; [| done].
    apply Hpos in E as Hv. by replace (v =? 0) with false by (symmetry; lia).
  - cbn [fold_left]. rewrite IH; cbn zeta.
    + unfold count_key. cbn [List.filter].
      destruct (decide (ThreatType_str (event_type e) = key)) as [-> | Hne].
      * rewrite lookup_insert_eq, bool_decide_eq_true_2 by done.
        cbn [default length]. rewrite Nat2Z.inj_succ.
        cbv [Datatypes.id].
        match goal with |- context [?d + 1 + ?c] =>
          replace (d + 1 + c) with (d + Z.succ c) by lia end.
        done.
      * rewrite lookup_insert_ne, bool_decide_eq_false_2 by done. done.
    + intros k v.
      destruct (decide (ThreatType_str (event_type e) = k)) as [-> | Hne].
      * rewrite lookup_insert_eq. intros [= <-].
        destruct (threat_stats !! k) as [v |] eqn:E;
          cbv [from_option Datatypes.id]; [| lia].
        apply Hpos in E. lia.
      * rewrite lookup_insert_ne by done. apply Hpos.
Qed.

(** X22: the threat statistics of the dashboard hold, under each key,
    the number of events among the 101 newest whose stored type reads as
    that key, and hold no key for which there is no such event; the
    counts are positive. *)
Theorem dashboard_threat_statistics st :
  ∃ dashboard,
    get_security_dashboard_data st = (Ok dashboard, st)
    ∧ ∀ key,
        let n := count_key key (take 101 (security_events st)) in
        threat_statistics dashboard !! key = (if n =? 0 then None else Some n)
        ∧ 0 <= n <= total_events dashboard.
Proof.
  unfold get_security_dashboard_data. eexists. split; [reflexivity |].
  intros key. cbn [threat_statistics total_events]. cbn zeta.
  rewrite !redis_lrange_head by lia.
  change (Z.to_nat (100 + 1)) with 101%nat.
  split.
  - unfold count_threats. rewrite count_threats_lookup.
    + cbn zeta. rewrite lookup_empty. cbn [default]. by rewrite Z.add_0_l.
    + intros k v. by rewrite lookup_empty.
  - unfold count_key. split; [lia |]. apply inj_le, length_filter_le.
Qed.

(** ** A client without history *)

Lemma unknown_client_features current_hour user_id ip user_agent st :
  ip ∉ _get_user_historical_ips user_id st →
  user_agent ∉ _get_user_historical_agents user_id st →
  _extract_behavioral_features current_hour user_id ip user_agent ∅ st
  = _extract_behavioral_features current_hour "" "" "" ∅ empty_redis.
Proof.
  intros Hip Hua. unfold _extract_behavioral_features.
  rewrite !bool_decide_eq_false_2; [reflexivity | | done | | done].
  - unfold _get_user_historical_agents, redis_smembers. cbn. set_solver.
  - unfold _get_user_historical_ips, redis_smembers. cbn. set_solver.
Qed.

Lemma idle_unknown_level current_hour :
  0 <= current_hour <= 23 →
  _determine_threat_level
    (_calculate_risk_score
       (_extract_behavioral_features current_hour "" "" "" ∅ empty_redis))
  = if (10 <=? current_hour) && (current_hour <=? 14) then MEDIUM else HIGH.
Proof.
  intros H.
  assert (Hh : ∃ n, current_hour = Z.of_nat n ∧ (n < 24)%nat).
  { exists (Z.to_nat current_hour). lia. }
  destruct Hh as (n & -> & Hn).
  do 24 (destruct n as [| n]; [vm_compute; reflexivity |]). lia.
Qed.

(** X23: a request from an address and a user agent that the user's
    history does not hold, with no activity data at all, is rated medium
    from 10 to 14 o'clock and high at every other hour of the day: it is
    never blocked, and outside those five hours it is logged and raises
    an alert. *)
Theorem detection_of_unknown_client now current_hour token_hex user_id request st :
  0 <= current_hour <= 23 →
  _get_client_ip request ∉ _get_user_historical_ips user_id st →
  default "" (headers request !! "user-agent") ∉ _get_user_historical_agents user_id st →
  let quiet := (10 <=? current_hour) && (current_hour <=? 14) in
  ∃ response st',
    ai_powered_threat_detection now current_hour token_hex user_id request ∅ st
    = (Ok response, st')
    ∧ blocking_required response = false
    ∧ r_threat_level response = (if quiet then "medium" else "high")
    ∧ recommended_actions response
      = (if quiet then [] else ["require_mfa"; "additional_verification"])
    ∧ (if quiet then st' = st
       else length (security_events st')
            = Nat.min (Z.to_nat 10001) (S (length (security_events st)))
            ∧ length (security_alerts st') = S (length (security_alerts st))).
Proof.
  intros Hh Hip Hua. cbn zeta.
  unfold ai_powered_threat_detection.
  rewrite (unknown_client_features _ _ _ _ _ Hip Hua).
  rewrite (idle_unknown_level _ Hh).
  destruct ((10 <=? current_hour) && (current_hour <=? 14)).
  - eexists _, _. split; [reflexivity |]. done.
  - unfold bind, ret, _log_security_event, _trigger_security_alert, modify.
    cbn -[Z.to_nat redis_ltrim _calculate_risk_score _extract_behavioral_features].
    eexists _, _. split; [reflexivity |].
    cbn -[Z.to_nat redis_ltrim _calculate_risk_score _extract_behavioral_features].
    rewrite redis_ltrim_cap, length_take. cbn [length].
    split_and!; done.
Qed.

(** A first request at three in the morning. *)
Lemma detection_of_unknown_client_witness :
  ∃ response st',
    ai_powered_threat_detection 0 3 "e1" "alice" sample_request ∅ empty_redis
    = (Ok response, st')
    ∧ blocking_required response = false
    ∧ r_threat_level response = "high"
    ∧ length (security_alerts st') = 1%nat.
Proof.
  destruct (detection_of_unknown_client 0 3 "e1" "alice" sample_request empty_redis)
    as (response & st' & Hrun & Hb & Hl & _ & _ & Ha).
  - lia.
  - vm_compute. set_solver.
  - vm_compute. set_solver.
  - exists response, st'. done.
Defined.

(** ** Client address *)

Lemma list_ascii_inj s1 s2 : list_ascii_of_string s1 = list_ascii_of_string s2 → s1 = s2.
Proof.
  intros H. rewrite <- (string_of_list_ascii_of_string s1), H.
  apply string_of_list_ascii_of_string.
Qed.

Lemma list_ascii_rev_app s1 s2 :
  list_ascii_of_string (String.rev_app s1 s2)
  = List.rev (list_ascii_of_string s1) ++ list_ascii_of_string s2.
Proof.
  revert s2. induction s1 as [| c s1 IH]; intros s2; [done |].
  cbn [String.rev_app list_ascii_of_string List.rev]. rewrite IH.
  cbn [list_ascii_of_string]. by rewrite <- List.app_assoc.
Qed.

Lemma list_ascii_rev s :
  list_ascii_of_string (String.rev s) = List.rev (list_ascii_of_string s).
Proof. unfold String.rev. rewrite list_ascii_rev_app. cbn. by rewrite List.app_nil_r. Qed.

Lemma string_rev_rev s : String.rev (String.rev s) = s.
Proof. apply list_ascii_inj. by rewrite !list_ascii_rev, List.rev_involutive. Qed.

Lemma lstrip_clean s : clean_head (list_ascii_of_string (lstrip s)).
Proof.
  induction s as [| c s IH]; [done |]. cbn [lstrip].
  destruct (is_space c) eqn:E; [done | exact E].
Qed.

Lemma lstrip_suffix s :
  ∃ p, list_ascii_of_string s = p ++ list_ascii_of_string (lstrip s)
       ∧ forallb is_space p = true.
Proof.
  induction s as [| c s (p & IH & Hp)]; [by exists [] |]. cbn [lstrip].
  destruct (is_space c) eqn:E.
  - exists (c :: p). cbn. by rewrite IH, E, Hp.
  - by exists [].
Qed.

Lemma lstrip_fixed s : clean_head (list_ascii_of_string s) → lstrip s = s.
Proof. destruct s as [| c s]; [done |]. cbn. by intros ->. Qed.

Lemma lstrip_all_space s :
  lstrip s = "" ↔ forallb is_space (list_ascii_of_string s) = true.
Proof.
  induction s as [| c s IH]; [done |]. cbn.
  destruct (is_space c); [exact IH | done].
Qed.

(** What [strip] returns, read as a list of characters: a piece of the
    argument that neither starts nor ends with whitespace. *)
Lemma strip_spec s :
  let r := list_ascii_of_string (strip s) in
  clean_head r ∧ clean_head (List.rev r)
  ∧ (∀ c, c ∈ r → c ∈ list_ascii_of_string s)
  ∧ (r = [] ↔ forallb is_space (list_ascii_of_string s) = true).
Proof.
  cbn zeta. unfold strip. rewrite list_ascii_rev.
  set (t := lstrip s). set (u := lstrip (String.rev t)).
  destruct (lstrip_suffix (String.rev t)) as (p & Hu & Hp). fold u in Hu.
  rewrite list_ascii_rev in Hu.
  assert (Ht : list_ascii_of_string t
               = List.rev (list_ascii_of_string u) ++ List.rev p).
  { rewrite <- List.rev_app_distr, <- Hu. by rewrite List.rev_involutive. }
  pose proof (lstrip_clean s) as Hclean. fold t in Hclean.
  split_and!.
  - rewrite Ht in Hclean.
    by destruct (List.rev (list_ascii_of_string u)).
  - rewrite List.rev_involutive. apply lstrip_clean.
  - intros c Hc.
    destruct (lstrip_suffix s) as (q & -> & _). fold t.
    rewrite Ht, !elem_of_app. right. by left.
  - destruct (lstrip_suffix s) as (q & Hs & Hq). fold t in Hs.
    rewrite Hs, forallb_app, Hq. cbn [andb]. split.
    + intros Hnil. rewrite Ht, Hnil. cbn [app].
      rewrite forallb_forall. intros c Hc%in_rev.
      revert c Hc. by apply forallb_forall.
    + intros Hall.
      rewrite Ht in Hclean, Hall.
      destruct (List.rev (list_ascii_of_string u)) as [| c r]; [done |].
      cbn in Hclean, Hall. by rewrite Hclean in Hall.
Qed.

Lemma split_head_no_sep sep s : sep ∉ list_ascii_of_string (split_head sep s).
Proof.
  induction s as [| c s IH]; cbn; [apply not_elem_of_nil |].
  destruct (Ascii.eqb_spec c sep) as [-> | Hne]; cbn; [apply not_elem_of_nil |].
  rewrite not_elem_of_cons. split; [congruence | done].
Qed.

(** X24: when the request carries a non-empty x-forwarded-for header, the
    client address is taken from it alone, whatever x-real-ip and the
    connection say: it is the first comma-separated entry with the
    surrounding whitespace removed, so it holds no comma and neither
    starts nor ends with whitespace; it is the empty string exactly when
    that first entry is empty or all whitespace. *)
Theorem client_ip_forwarded request forwarded_for :
  headers request !! "x-forwarded-for" = Some forwarded_for →
  truthy forwarded_for = true →
  let ip := _get_client_ip request in
  ip = _get_client_ip (mkRequest {[ "x-forwarded-for" := forwarded_for ]} None)
  ∧ ("," ∉ list_ascii_of_string ip)%char
  ∧ strip ip = ip
  ∧ clean_head (list_ascii_of_string ip)
  ∧ clean_head (List.rev (list_ascii_of_string ip))
  ∧ (ip = ""
     ↔ forallb is_space (list_ascii_of_string (split_head "," forwarded_for)) = true).
Proof.
  intros Hh Ht. cbn zeta. unfold _get_client_ip. cbn [headers].
  rewrite Hh, lookup_singleton_eq. cbn [if_truthy]. rewrite Ht.
  destruct (strip_spec (split_head "," forwarded_for)) as (Hc & Hr & Hin & Hnil).
  split_and!; try done.
  - intros Hcomma%Hin. by apply split_head_no_sep in Hcomma.
  - unfold strip at 1. rewrite (lstrip_fixed _ Hc).
    rewrite lstrip_fixed by (by rewrite list_ascii_rev).
    apply string_rev_rev.
  - rewrite <- Hnil. split; [by intros -> |].
    intros H. by apply list_ascii_inj.
Qed.

(** The sample request, which came through a proxy. *)
Lemma client_ip_forwarded_witness :
  _get_client_ip sample_request = "10.0.0.1"
  ∧ ("," ∉ list_ascii_of_string (_get_client_ip sample_request))%char
  ∧ strip (_get_client_ip sample_request) = _get_client_ip sample_request.
Proof.
  destruct (client_ip_forwarded sample_request "10.0.0.1, 172.16.0.9")
    as (_ & Hcomma & Hstrip & _); [reflexivity | reflexivity |].
  split; [reflexivity | by split].
Defined.

(** ** Counters *)

Lemma counters_numeric_kv st st' :
  kv st' = kv st → counters_numeric st → counters_numeric st'.
Proof. unfold counters_numeric. by intros ->. Qed.

Lemma counters_numeric_insert key e st :
  (counter_key key = true → ∃ n, e_val e = RInt n) →
  counters_numeric st →
  counters_numeric (set_kv (λ m, <[key := e]> m) st).
Proof.
  intros He Hst k e'. cbn [kv set_kv].
  destruct (decide (key = k)) as [-> | Hne].
  - rewrite lookup_insert_eq. intros [= <-]. exact He.
  - rewrite lookup_insert_ne by done. apply Hst.
Qed.

Lemma counters_numeric_delete key st :
  counters_numeric st → counters_numeric (redis_delete key st).
Proof.
  intros Hst k e. unfold redis_delete. cbn [kv set_kv].
  intros [_ Hk]%lookup_delete_Some. by apply Hst.
Qed.

Lemma counters_numeric_expire now key seconds st :
  counters_numeric st → counters_numeric (redis_expire now key seconds st).
Proof.
  intros Hst. unfold redis_expire.
  destruct (kv st !! key) as [e |] eqn:E; [| done].
  destruct (live now e); [| done].
  apply counters_numeric_insert; [| done].
  intros Hk. cbn [e_val]. by apply (Hst key).
Qed.

Lemma counters_numeric_incr now key st st' :
  redis_incr now key st = Some st' → counters_numeric st → counters_numeric st'.
Proof.
  unfold redis_incr. intros H Hst.
  destruct (kv st !! key) as [e |];
    [destruct (live now e); [destruct (e_val e) as [n | |]; [destruct (n <? int64_max) | |] |] |];
    try done; injection H as <-; apply counters_numeric_insert; eauto.
Qed.

Lemma counters_numeric_log event st :
  counters_numeric st → counters_numeric (snd (_log_security_event event st)).
Proof.
  apply counters_numeric_kv.
  unfold _log_security_event, _trigger_security_alert, bind, modify.
  by destruct (severity event).
Qed.

Lemma counters_numeric_check now key action st :
  snd (_check_rate_limit now key action st) = st.
Proof.
  unfold _check_rate_limit. by destruct (redis_get now key st) as [[] |].
Qed.

Lemma counters_numeric_increment now key action st :
  counters_numeric st →
  counters_numeric (snd (_increment_rate_limit_counter now key action st)).
Proof.
  intros Hst. unfold _increment_rate_limit_counter.
  destruct (redis_incr now key st) as [st' |] eqn:E; cbn [snd];
    apply counters_numeric_expire; [| done].
  by apply (counters_numeric_incr now key st).
Qed.

Lemma counters_numeric_check_each now event action keys st :
  counters_numeric st →
  counters_numeric (snd (check_each now event action keys st)).
Proof.
  intros Hst. induction keys as [| key rest IH]; [done |].
  cbn [check_each]. unfold bind at 1.
  pose proof (counters_numeric_check now key action st) as Hsame.
  destruct (_check_rate_limit now key action st) as [[[] | e] st1];
    cbn [snd] in Hsame; subst st1; [done | | done].
  unfold bind. pose proof (counters_numeric_log event st Hst) as Hlog.
  destruct (_log_security_event event st) as [[[] | e] st1]; cbn [snd] in Hlog |- *;
    [| done].
  by destruct (rate_limits !! action).
Qed.

Lemma counters_numeric_increment_each now action keys : ∀ st,
  counters_numeric st →
  counters_numeric (snd (increment_each now action keys st)).
Proof.
  induction keys as [| key rest IH]; intros st Hst; [done |].
  cbn [increment_each]. unfold bind.
  pose proof (counters_numeric_increment now key action st Hst) as H1.
  destruct (_increment_rate_limit_counter now key action st) as [[[] | e] st1];
    cbn [snd] in H1; [by apply IH | done].
Qed.

(** X25: no operation of the manager stores anything but a number under
    a counter key.  If every rate-limit and MFA-attempt key of the store
    holds a number, the same is true after rate limiting, MFA
    validation, enrollment, issuing, validating and revoking a token,
    threat detection and logging, whatever they return or raise; and in
    such a store reading a counter never fails. *)
Theorem counters_stay_numeric mgr now token_hex st :
  counters_numeric st →
  (∀ request user_id action,
     counters_numeric
       (snd (advanced_rate_limiting mgr now token_hex request user_id action st)))
  ∧ (∀ user_id token method,
       counters_numeric (snd (validate_mfa_token mgr now token_hex user_id token method st)))
  ∧ (∀ random_base32 codes user_id method,
       counters_numeric
         (snd (implement_multi_factor_authentication mgr now random_base32 codes
                 user_id method st)))
  ∧ (∀ payload token_type,
       counters_numeric
         (snd (create_secure_jwt_token mgr now token_hex payload token_type st)))
  ∧ (∀ token, counters_numeric (snd (validate_jwt_token mgr now token st)))
  ∧ (∀ token, counters_numeric (snd (revoke_jwt_token mgr now token st)))
  ∧ (∀ current_hour user_id request activity_data,
       counters_numeric
         (snd (ai_powered_threat_detection now current_hour token_hex user_id request
                 activity_data st)))
  ∧ (∀ key action, counter_key key = true →
       ∃ allowed, _check_rate_limit now key action st = (Ok allowed, st)).
Proof.
  intros Hst. split_and!.
  - intros request user_id action. unfold advanced_rate_limiting.
    set (keys := rate_limit_keys _ _ _ _ _). set (event := mkEvent _ _ _ _ _ _ _ _ _).
    unfold bind at 1.
    pose proof (counters_numeric_check_each now event action keys st Hst) as H1.
    destruct (check_each now event action keys st) as [[[] | e] st1];
      cbn [snd] in H1; [| done].
    unfold bind.
    pose proof (counters_numeric_increment_each now action keys st1 H1) as H2.
    by destruct (increment_each now action keys st1) as [[[] | e] st2].
  - intros user_id token method. unfold validate_mfa_token. unfold bind at 1.
    pose proof (counters_numeric_check now ("mfa_attempts:" +:+ user_id)
                  "mfa_attempt" st) as Hsame.
    destruct (_check_rate_limit now ("mfa_attempts:" +:+ user_id) "mfa_attempt" st)
      as [[[] | e] st1]; cbn [snd] in Hsame; subst st1; [| | done].
    + unfold bind.
      pose proof (counters_numeric_increment now ("mfa_attempts:" +:+ user_id)
                    "mfa_attempt" st Hst) as H1.
      destruct (_increment_rate_limit_counter now ("mfa_attempts:" +:+ user_id)
                  "mfa_attempt" st) as [[[] | e] st1]; cbn [snd] in H1; [| done].
      destruct method; try done.
      unfold _validate_totp_token.
      destruct (redis_get now ("mfa_secret:" +:+ user_id) st1) as [v |]; [| done].
      destruct (truthy (rvalue_bytes v)); [| done].
      by destruct (fernet_decrypt mgr (rvalue_bytes v)).
    + unfold bind.
      pose proof (counters_numeric_log
                    (mkEvent token_hex (Some user_id) BRUTE_FORCE HIGH now "unknown"
                             "unknown" MfaBruteForceDetails 0.8%float)
                    st Hst) as Hlog.
      by destruct (_log_security_event _ st) as [[[] | e] st1].
  - intros random_base32 codes user_id method.
    destruct method; try done.
    unfold implement_multi_factor_authentication, _setup_totp_mfa, bind, modify, ret.
    cbn [snd]. by apply counters_numeric_insert.
  - intros payload token_type.
    unfold create_secure_jwt_token, bind, modify, ret. cbn [snd].
    by apply counters_numeric_insert.
  - intros token. unfold validate_jwt_token.
    destruct (jwt_decode _ _ _ _ _) as [payload | |]; try done.
    destruct (py_truthy (payload !! "jti")); [| done].
    unfold bind. destruct (redis_get _ _ st) as [v |]; [| done].
    by destruct (truthy (rvalue_bytes v)).
  - intros token. unfold revoke_jwt_token.
    destruct (jwt_decode _ _ _ _ _) as [payload | |]; try done.
    destruct (py_truthy (payload !! "jti")); [| done].
    unfold bind, modify, ret. cbn [snd]. by apply counters_numeric_delete.
  - intros current_hour user_id request activity_data.
    unfold ai_powered_threat_detection.
    destruct (_determine_threat_level _); try done; unfold bind;
      match goal with |- context [_log_security_event ?ev st] =>
        pose proof (counters_numeric_log ev st Hst) as Hlog;
        by destruct (_log_security_event ev st) as [[[] | e] st1]
      end.
  - intros key action Hkey. unfold _check_rate_limit, redis_get.
    destruct (kv st !! key) as [e |] eqn:E; [| eauto].
    destruct (live now e); [| eauto].
    destruct (Hst key e E Hkey) as [n ->]. eauto.
Qed.

(** The empty store. *)
Lemma counters_stay_numeric_witness :
  counters_numeric
    (snd (advanced_rate_limiting sample_manager 0 "e1" sample_request (Some "alice")
            "login" empty_redis)).
Proof.
  destruct (counters_stay_numeric sample_manager 0 "e1" empty_redis) as [H _].
  - intros key e. cbn. by rewrite lookup_empty.
  - apply H.
Defined.
